(** * crt-effects: the CRT overlay of crt-blog

    A shallow embedding of [src/scripts/crt-effects.ts]:

    - [Shader]: the GLSL fragment shader [FRAGMENT_SHADER] (and the
      one line of [VERTEX_SHADER] that produces [v_uv]).  GLSL [float]
      values are modelled as real numbers, every literal is kept as
      the source writes it (in particular the constant [3.14159265],
      which is not the real number [PI]).
    - [Dom]: the fragment of the DOM and of the WebGL API the script
      talks to, as an explicit world threaded through a state and
      exception monad.
    - [Crt]: [compileShader], [linkProgram], [initCRT] and the two
      closures [resize] and [render].
    - [Menu]: [initMenu] and its click handler.
    - [Page]: the [DOMContentLoaded] handler and the host's event loop. *)

From Stdlib Require Import Reals Lra Lia ZArith NArith QArith List String Bool Sorted.
From Stdlib Require Import Zfloor Machin R_sqrt.
Import ListNotations.

(* ================================================================== *)
(** * The fragment shader *)
(* ================================================================== *)

Module Shader.
Local Open Scope R_scope.

Record vec2 : Type := mkvec2 { vx : R; vy : R }.
Record vec3 : Type := mkvec3 { c_r : R; c_g : R; c_b : R }.
Record vec4 : Type := mkvec4 { rgb : vec3; alpha : R }.

(** ** GLSL built-ins used by the shader *)

Definition vscale (v : vec2) (k : R) : vec2 := mkvec2 (vx v * k) (vy v * k).
Definition vadd_s (v : vec2) (k : R) : vec2 := mkvec2 (vx v + k) (vy v + k).
Definition vsub_s (v : vec2) (k : R) : vec2 := mkvec2 (vx v - k) (vy v - k).
Definition vmul (v w : vec2) : vec2 := mkvec2 (vx v * vx w) (vy v * vy w).

Definition dot (p q : vec2) : R := vx p * vx q + vy p * vy q.
Definition length (v : vec2) : R := sqrt (dot v v).
Definition floor (x : R) : R := IZR (Zfloor x).
Definition fract (x : R) : R := x - floor x.
Definition clamp (x lo hi : R) : R := Rmin (Rmax x lo) hi.
Definition smoothstep (edge0 edge1 x : R) : R :=
  let t := clamp ((x - edge0) / (edge1 - edge0)) 0 1 in
  t * t * (3 - 2 * t).

(** ** [VERTEX_SHADER]: [v_uv = a_position * 0.5 + 0.5] *)

Definition v_uv_of (a_position : vec2) : vec2 :=
  vadd_s (vscale a_position 0.5) 0.5.

(** ** [hash] *)

Definition hash (p : vec2) : R :=
  let h := dot p (mkvec2 127.1 311.7) in
  fract (sin h * 43758.5453123).

(** ** [main], one local of the source per definition *)

Definition amber : vec3 := mkvec3 1.0 0.69 0.0.

Definition scanThickness : R := 1.0.

Definition scanlineY (uv u_resolution : vec2) : R :=
  vy uv * vy u_resolution / scanThickness.

(** The constant is kept as the source writes it.  Which number a
    [mediump float] makes of it is up to the implementation, so the
    statements about rows in [ShaderFacts] and [ShaderLaws] are made
    for every value of the constant. *)
Definition scanline (uv u_resolution : vec2) : R :=
  sin (scanlineY uv u_resolution * 3.14159265).

Definition scanDark (uv u_resolution : vec2) : R :=
  (1.0 - clamp (scanline uv u_resolution) 0.0 1.0) * 0.25.

Definition vigCoord (uv : vec2) : vec2 := vsub_s (vscale uv 2.0) 1.0.

Definition vigDist (uv : vec2) : R :=
  length (vmul (vigCoord uv) (mkvec2 0.7 0.5)).

Definition vigDark (uv : vec2) : R :=
  smoothstep 0.6 1.4 (vigDist uv) * 0.75.

Definition flickerDark (u_time : R) : R :=
  (hash (mkvec2 (floor (u_time * 30.0)) 0.0) - 0.5) * 0.08.

Definition totalDark (uv : vec2) (u_time : R) (u_resolution : vec2) : R :=
  clamp (scanDark uv u_resolution + vigDark uv + flickerDark u_time) 0.0 1.0.

Definition totalAdd : vec3 := mkvec3 0.0 0.0 0.0.

(** [gl_FragColor] as a function of the varying and the two uniforms. *)
Definition main (v_uv : vec2) (u_time : R) (u_resolution : vec2) : vec4 :=
  mkvec4 totalAdd (totalDark v_uv u_time u_resolution).

End Shader.

(* ================================================================== *)
(** * The host: document, window, WebGL context *)
(* ================================================================== *)

Module Dom.
Local Open Scope string_scope.
Local Open Scope list_scope.

(** ** Elements

    [style.cssText] is kept parsed: a list of declarations whose
    values are either literal text or the numbers the script
    interpolates into the text. *)

Inductive CssValue : Type :=
| CssText (s : string)
| CssBackdrop (blur brightness : Q)
| CssNumber (q : Q).

#[local] Unset Elimination Schemes.
Inductive Node : Type := mkNode {
  tagName : string;
  node_id : string;
  classList : list string;
  innerText : string;
  cssText : list (string * CssValue);
  childNodes : list Node }.
#[local] Set Elimination Schemes.

(** A node of the document is named by its index path below
    [document.body]; a detached node is a plain value. *)
Definition NodeRef : Type := list nat.

Definition createElement (tag : string) : Node := mkNode tag "" [] "" [] [].

Definition set_id (s : string) (n : Node) : Node :=
  mkNode (tagName n) s (classList n) (innerText n) (cssText n) (childNodes n).
Definition set_classList (c : list string) (n : Node) : Node :=
  mkNode (tagName n) (node_id n) c (innerText n) (cssText n) (childNodes n).
Definition set_innerText (s : string) (n : Node) : Node :=
  mkNode (tagName n) (node_id n) (classList n) s (cssText n) (childNodes n).
Definition set_cssText (c : list (string * CssValue)) (n : Node) : Node :=
  mkNode (tagName n) (node_id n) (classList n) (innerText n) c (childNodes n).
Definition set_childNodes (c : list Node) (n : Node) : Node :=
  mkNode (tagName n) (node_id n) (classList n) (innerText n) (cssText n) c.

(** ** Trees by path *)

Fixpoint alter_nth {A : Type} (g : A -> A) (i : nat) (l : list A) : list A :=
  match l, i with
  | [], _ => []
  | a :: l', O => g a :: l'
  | a :: l', S i' => a :: alter_nth g i' l'
  end.

Fixpoint insert_nth {A : Type} (x : A) (i : nat) (l : list A) : list A :=
  match i, l with
  | O, _ => x :: l
  | S i', a :: l' => a :: insert_nth x i' l'
  | S _, [] => [x]
  end.

Fixpoint node_at (forest : list Node) (p : NodeRef) : option Node :=
  match p with
  | [] => None
  | i :: p' =>
      match nth_error forest i with
      | None => None
      | Some n => match p' with [] => Some n | _ => node_at (childNodes n) p' end
      end
  end.

Fixpoint alter_at (g : Node -> Node) (p : NodeRef) (forest : list Node) : list Node :=
  match p with
  | [] => forest
  | i :: p' =>
      alter_nth
        (fun n => match p' with
                  | [] => g n
                  | _ => set_childNodes (alter_at g p' (childNodes n)) n
                  end) i forest
  end.

(** ** Selectors: the two the script uses, [tag] and [anc tag] *)

Inductive Selector : Type :=
| SelTag (tag : string)
| SelDescendant (anc tag : string).

Section FirstMatch.
Context {A : Type} (f : A -> option NodeRef).

(** First element of [l], in order, below which [f] finds a match. *)
Fixpoint first_match (i : nat) (l : list A) : option NodeRef :=
  match l with
  | [] => None
  | a :: l' =>
      match f a with
      | Some p => Some (i :: p)
      | None => first_match (S i) l'
      end
  end.
End FirstMatch.

(** Document order is pre-order: the element itself, then its children. *)
Fixpoint select_tag (tag : string) (n : Node) : option NodeRef :=
  match n with
  | mkNode t _ _ _ _ children =>
      if String.eqb t tag then Some []
      else first_match (select_tag tag) 0 children
  end.

(** [inside] records whether a proper ancestor has tag [anc]. *)
Fixpoint select_descendant (anc tag : string) (inside : bool) (n : Node)
  : option NodeRef :=
  match n with
  | mkNode t _ _ _ _ children =>
      if inside && String.eqb t tag then Some []
      else first_match (select_descendant anc tag (inside || String.eqb t anc))
             0 children
  end.

Definition select (s : Selector) (forest : list Node) : option NodeRef :=
  match s with
  | SelTag tag => first_match (select_tag tag) 0 forest
  | SelDescendant anc tag =>
      first_match (select_descendant anc tag false) 0 forest
  end.

(** ** WebGL objects and the context *)

Inductive ShaderType : Type := GL_VERTEX_SHADER | GL_FRAGMENT_SHADER.
Inductive ShaderSource : Type := VERTEX_SHADER | FRAGMENT_SHADER.
Inductive BlendFactor : Type := GL_ZERO | GL_ONE | GL_ONE_MINUS_SRC_ALPHA.

Record WebGLShader : Type := mkShader {
  shader_type : ShaderType;
  shader_source : option ShaderSource }.

Record WebGLProgram : Type := mkProgram {
  attached : list WebGLShader }.

(** One [drawArrays] call, with the state it was issued under. *)
Record Draw : Type := mkDraw {
  draw_time : R;
  draw_resolution : N * N;
  draw_viewport : N * N * N * N;
  draw_first : N;
  draw_count : N }.

Record GL : Type := mkGL {
  viewport : N * N * N * N;
  blend : bool;
  blendFunc : BlendFactor * BlendFactor;
  program_in_use : option WebGLProgram;
  array_buffer : list Z;
  u_time : R;
  u_resolution : N * N;
  clears : nat;
  draws : list Draw }.

(** What the environment is able to do; the script only ever observes
    it through [null] results and status flags. *)
Record Platform : Type := mkPlatform {
  supports_webgl : bool;
  creates_shader : ShaderType -> bool;
  compiles : ShaderType -> ShaderSource -> bool;
  creates_program : bool;
  links : bool }.

(** ** Callbacks: the three closures the script hands to the host *)

Inductive Callback : Type :=
| fn_resize
| fn_render (startTime : R)
| fn_toggle (button list : NodeRef).

(** ** The world *)

Record World : Type := mkWorld {
  platform : Platform;
  body : list Node;
  innerWidth : N;
  innerHeight : N;
  now : R;
  canvas_width : N;
  canvas_height : N;
  gl : option GL;
  resize_listeners : list Callback;
  click_listeners : list (NodeRef * Callback);
  frame_requests : list Callback }.

Definition with_body (b : list Node) (w : World) : World :=
  mkWorld (platform w) b (innerWidth w) (innerHeight w) (now w)
    (canvas_width w) (canvas_height w) (gl w)
    (resize_listeners w) (click_listeners w) (frame_requests w).
Definition with_window (iw ih : N) (w : World) : World :=
  mkWorld (platform w) (body w) iw ih (now w)
    (canvas_width w) (canvas_height w) (gl w)
    (resize_listeners w) (click_listeners w) (frame_requests w).
Definition with_now (t : R) (w : World) : World :=
  mkWorld (platform w) (body w) (innerWidth w) (innerHeight w) t
    (canvas_width w) (canvas_height w) (gl w)
    (resize_listeners w) (click_listeners w) (frame_requests w).
Definition with_canvas_width (cw : N) (w : World) : World :=
  mkWorld (platform w) (body w) (innerWidth w) (innerHeight w) (now w)
    cw (canvas_height w) (gl w)
    (resize_listeners w) (click_listeners w) (frame_requests w).
Definition with_canvas_height (ch : N) (w : World) : World :=
  mkWorld (platform w) (body w) (innerWidth w) (innerHeight w) (now w)
    (canvas_width w) ch (gl w)
    (resize_listeners w) (click_listeners w) (frame_requests w).
Definition with_gl (g : option GL) (w : World) : World :=
  mkWorld (platform w) (body w) (innerWidth w) (innerHeight w) (now w)
    (canvas_width w) (canvas_height w) g
    (resize_listeners w) (click_listeners w) (frame_requests w).
Definition with_resize_listeners (l : list Callback) (w : World) : World :=
  mkWorld (platform w) (body w) (innerWidth w) (innerHeight w) (now w)
    (canvas_width w) (canvas_height w) (gl w)
    l (click_listeners w) (frame_requests w).
Definition with_click_listeners (l : list (NodeRef * Callback)) (w : World)
  : World :=
  mkWorld (platform w) (body w) (innerWidth w) (innerHeight w) (now w)
    (canvas_width w) (canvas_height w) (gl w)
    (resize_listeners w) l (frame_requests w).
Definition with_frame_requests (l : list Callback) (w : World) : World :=
  mkWorld (platform w) (body w) (innerWidth w) (innerHeight w) (now w)
    (canvas_width w) (canvas_height w) (gl w)
    (resize_listeners w) (click_listeners w) l.

(** The page as the browser hands it to the script: a parsed document,
    a window, a clock; a canvas not yet created has the default
    300 x 150 backing store, no context, nothing registered. *)
Definition fresh (p : Platform) (doc : list Node) (iw ih : N) (t : R) : World :=
  mkWorld p doc iw ih t 300 150 None [] [] [].

(** ** State and exception monad *)

Inductive DOMException : Type := NotFoundError.

Inductive Outcome (A : Type) : Type :=
| Normal (a : A) (w : World)
| Throws (e : DOMException) (w : World).
Arguments Normal {A} a w.
Arguments Throws {A} e w.

Definition M (A : Type) : Type := World -> Outcome A.

Definition ret {A : Type} (a : A) : M A := fun w => Normal a w.
Definition bind {A B : Type} (m : M A) (k : A -> M B) : M B :=
  fun w => match m w with
           | Normal a w' => k a w'
           | Throws e w' => Throws e w'
           end.
Definition throw {A : Type} (e : DOMException) : M A := fun w => Throws e w.
Definition get {A : Type} (f : World -> A) : M A := fun w => Normal (f w) w.
Definition modify (f : World -> World) : M unit := fun w => Normal tt (f w).

Definition world_of {A : Type} (o : Outcome A) : World :=
  match o with Normal _ w => w | Throws _ w => w end.

Definition returns {A : Type} (o : Outcome A) : bool :=
  match o with Normal _ _ => true | Throws _ _ => false end.

Fixpoint forEach {A : Type} (l : list A) (f : A -> M unit) : M unit :=
  match l with
  | [] => ret tt
  | a :: l' => bind (f a) (fun _ => forEach l' f)
  end.

End Dom.

Declare Scope dom_scope.
Delimit Scope dom_scope with dom.
Notation "x <- m ;; k" := (Dom.bind m (fun x => k))
  (at level 61, m at next level, right associativity) : dom_scope.
Notation "m ;; k" := (Dom.bind m (fun _ => k))
  (at level 61, right associativity) : dom_scope.

(* ================================================================== *)
(** * The CRT overlay: [compileShader], [linkProgram], [initCRT] *)
(* ================================================================== *)

Module Crt.
Import Dom.
Local Open Scope string_scope.
Local Open Scope list_scope.
Local Open Scope dom_scope.

(** ** The calls of the WebGL API the script makes

    Shader and program objects are values; the context is the [gl]
    field of the world, and a call on it updates that field.  The
    script branches on three results only: the context, the compile
    status and the link status.  [createBuffer] and [bindBuffer] are
    folded into [bufferData]; the attribute set-up
    ([getAttribLocation], [enableVertexAttribArray],
    [vertexAttribPointer]) and [getUniformLocation] bind the quad and
    the two uniforms by name and are folded into the calls that use
    them. *)

Inductive WebGLRenderingContext : Type := webgl.

Definition initial_gl (w : World) : GL :=
  mkGL (0, 0, canvas_width w, canvas_height w)%N false (GL_ONE, GL_ZERO)
    None [] 0%R (0, 0)%N 0 [].

Definition getContext : M (option WebGLRenderingContext) :=
  fun w =>
    if supports_webgl (platform w)
    then Normal (Some webgl) (with_gl (Some (initial_gl w)) w)
    else Normal None w.

Definition gl_call (f : GL -> GL) : M unit :=
  modify (fun w => with_gl (option_map f (gl w)) w).

Definition createShader (_ : WebGLRenderingContext) (type : ShaderType)
  : M (option WebGLShader) :=
  fun w =>
    if creates_shader (platform w) type
    then Normal (Some (mkShader type None)) w
    else Normal None w.

Definition shaderSource (shader : WebGLShader) (source : ShaderSource)
  : WebGLShader :=
  mkShader (shader_type shader) (Some source).

Definition COMPILE_STATUS (shader : WebGLShader) : M bool :=
  get (fun w =>
         match shader_source shader with
         | Some source => compiles (platform w) (shader_type shader) source
         | None => false
         end).

Definition deleteShader (_ : WebGLShader) : M unit := ret tt.

Definition createProgram (_ : WebGLRenderingContext) : M (option WebGLProgram) :=
  fun w =>
    if creates_program (platform w)
    then Normal (Some (mkProgram [])) w
    else Normal None w.

Definition attachShader (program : WebGLProgram) (shader : WebGLShader)
  : WebGLProgram :=
  mkProgram (attached program ++ [shader]).

Definition LINK_STATUS (_ : WebGLProgram) : M bool :=
  get (fun w => links (platform w)).

Definition deleteProgram (_ : WebGLProgram) : M unit := ret tt.

Definition bufferData (data : list Z) : M unit :=
  gl_call (fun g =>
    mkGL (viewport g) (blend g) (blendFunc g) (program_in_use g) data
      (u_time g) (u_resolution g) (clears g) (draws g)).

Definition useProgram (program : WebGLProgram) : M unit :=
  gl_call (fun g =>
    mkGL (viewport g) (blend g) (blendFunc g) (Some program) (array_buffer g)
      (u_time g) (u_resolution g) (clears g) (draws g)).

Definition enable_BLEND : M unit :=
  gl_call (fun g =>
    mkGL (viewport g) true (blendFunc g) (program_in_use g) (array_buffer g)
      (u_time g) (u_resolution g) (clears g) (draws g)).

Definition gl_blendFunc (sfactor dfactor : BlendFactor) : M unit :=
  gl_call (fun g =>
    mkGL (viewport g) (blend g) (sfactor, dfactor) (program_in_use g)
      (array_buffer g) (u_time g) (u_resolution g) (clears g) (draws g)).

Definition gl_viewport (x y width height : N) : M unit :=
  gl_call (fun g =>
    mkGL (x, y, width, height) (blend g) (blendFunc g) (program_in_use g)
      (array_buffer g) (u_time g) (u_resolution g) (clears g) (draws g)).

Definition uniform1f_u_time (v : R) : M unit :=
  gl_call (fun g =>
    mkGL (viewport g) (blend g) (blendFunc g) (program_in_use g)
      (array_buffer g) v (u_resolution g) (clears g) (draws g)).

Definition uniform2f_u_resolution (x y : N) : M unit :=
  gl_call (fun g =>
    mkGL (viewport g) (blend g) (blendFunc g) (program_in_use g)
      (array_buffer g) (u_time g) (x, y) (clears g) (draws g)).

Definition clear_COLOR_BUFFER_BIT : M unit :=
  gl_call (fun g =>
    mkGL (viewport g) (blend g) (blendFunc g) (program_in_use g)
      (array_buffer g) (u_time g) (u_resolution g) (S (clears g)) (draws g)).

Definition drawArrays_TRIANGLE_STRIP (first count : N) : M unit :=
  gl_call (fun g =>
    mkGL (viewport g) (blend g) (blendFunc g) (program_in_use g)
      (array_buffer g) (u_time g) (u_resolution g) (clears g)
      (draws g ++ [mkDraw (u_time g) (u_resolution g) (viewport g) first count])).

(** ** The calls on [document], [window] and [performance] *)

Definition appendChild (n : Node) : M unit :=
  modify (fun w => with_body (body w ++ [n]) w).

Definition addEventListener_resize (cb : Callback) : M unit :=
  modify (fun w => with_resize_listeners (resize_listeners w ++ [cb]) w).

Definition requestAnimationFrame (cb : Callback) : M unit :=
  modify (fun w => with_frame_requests (frame_requests w ++ [cb]) w).

Definition performance_now : M R := get now.

(** ** [compileShader] *)

Definition compileShader (gl : WebGLRenderingContext) (type : ShaderType)
  (source : ShaderSource) : M (option WebGLShader) :=
  shader <- createShader gl type ;;
  match shader with
  | None => ret None
  | Some shader =>
      let shader := shaderSource shader source in
      status <- COMPILE_STATUS shader ;;
      if negb status
      then deleteShader shader ;; ret None
      else ret (Some shader)
  end.

(** ** [linkProgram] *)

Definition linkProgram (gl : WebGLRenderingContext) (vs fs : WebGLShader)
  : M (option WebGLProgram) :=
  program <- createProgram gl ;;
  match program with
  | None => ret None
  | Some program =>
      let program := attachShader program vs in
      let program := attachShader program fs in
      status <- LINK_STATUS program ;;
      if negb status
      then deleteProgram program ;; ret None
      else ret (Some program)
  end.

(** ** [initCRT] *)

Record BloomLayer : Type := mkBloomLayer {
  blur : Q;
  brightness : Q;
  opacity : Q }.

Definition bloomLayers : list BloomLayer :=
  [ mkBloomLayer 0.5 1.1  0.45;
    mkBloomLayer 1.5 1.15 0.3;
    mkBloomLayer 3   1.2  0.2;
    mkBloomLayer 6   1.25 0.14;
    mkBloomLayer 12  1.2  0.1;
    mkBloomLayer 24  1.15 0.07;
    mkBloomLayer 48  1.1  0.04;
    mkBloomLayer 80  1.05 0.02 ]%Q.

Definition layer_of (l : BloomLayer) : Node :=
  let layer := createElement "div" in
  set_cssText
    [ ("position", CssText "fixed");
      ("inset", CssText "0");
      ("width", CssText "100%");
      ("height", CssText "100%");
      ("pointer-events", CssText "none");
      ("z-index", CssText "9998");
      ("backdrop-filter", CssBackdrop (blur l) (brightness l));
      ("-webkit-backdrop-filter", CssBackdrop (blur l) (brightness l));
      ("mix-blend-mode", CssText "screen");
      ("opacity", CssNumber (opacity l)) ] layer.

Definition canvas_element : Node :=
  let canvas := createElement "canvas" in
  set_cssText
    [ ("position", CssText "fixed");
      ("inset", CssText "0");
      ("width", CssText "100%");
      ("height", CssText "100%");
      ("pointer-events", CssText "none");
      ("z-index", CssText "9999") ] canvas.

Definition vertices : list Z := [-1; -1; 1; -1; -1; 1; 1; 1]%Z.

(** The closure [resize]. *)
Definition resize : M unit :=
  iw <- get innerWidth ;;
  modify (with_canvas_width iw) ;;
  ih <- get innerHeight ;;
  modify (with_canvas_height ih) ;;
  cw <- get canvas_width ;;
  ch <- get canvas_height ;;
  gl_viewport 0 0 cw ch.

(** The closure [render]; [startTime] is the variable it captures. *)
Definition render (startTime : R) : M unit :=
  t <- performance_now ;;
  let elapsed := ((t - startTime) / 1000.0)%R in
  uniform1f_u_time elapsed ;;
  cw <- get canvas_width ;;
  ch <- get canvas_height ;;
  uniform2f_u_resolution cw ch ;;
  clear_COLOR_BUFFER_BIT ;;
  drawArrays_TRIANGLE_STRIP 0 4 ;;
  requestAnimationFrame (fn_render startTime).

Definition initCRT : M unit :=
  forEach bloomLayers (fun l => appendChild (layer_of l)) ;;
  let canvas := canvas_element in
  appendChild canvas ;;
  gl <- getContext ;;
  match gl with
  | None => ret tt
  | Some gl =>
      vs <- compileShader gl GL_VERTEX_SHADER VERTEX_SHADER ;;
      fs <- compileShader gl GL_FRAGMENT_SHADER FRAGMENT_SHADER ;;
      match vs, fs with
      | Some vs, Some fs =>
          program <- linkProgram gl vs fs ;;
          match program with
          | None => ret tt
          | Some program =>
              bufferData vertices ;;
              useProgram program ;;
              enable_BLEND ;;
              gl_blendFunc GL_ONE GL_ONE_MINUS_SRC_ALPHA ;;
              addEventListener_resize fn_resize ;;
              resize ;;
              startTime <- performance_now ;;
              requestAnimationFrame (fn_render startTime)
          end
      | _, _ => ret tt
      end
  end.

End Crt.

(* ================================================================== *)
(** * The navigation menu: [initMenu] *)
(* ================================================================== *)

Module Menu.
Import Dom.
Local Open Scope string_scope.
Local Open Scope list_scope.
Local Open Scope dom_scope.

Definition querySelector (s : Selector) : M (option NodeRef) :=
  get (fun w => select s (body w)).

(** [child_index parent ref] is [Some i] when [ref] names the [i]-th
    child of [parent]. *)
Fixpoint child_index (parent ref : NodeRef) : option nat :=
  match parent, ref with
  | [], [i] => Some i
  | a :: parent', b :: ref' =>
      if Nat.eqb a b then child_index parent' ref' else None
  | _, _ => None
  end.

(** [parent.insertBefore(newChild, ref)]: a [NotFoundError] when [ref]
    is not a child of [parent].  Inserting shifts [ref] one place to
    the right, so the call answers with the paths that name
    [newChild] and [ref] from then on. *)
Definition insertBefore (parent : NodeRef) (newChild : Node) (ref : NodeRef)
  : M (NodeRef * NodeRef) :=
  fun w =>
    match child_index parent ref with
    | Some i =>
        Normal (parent ++ [i], parent ++ [S i])
          (with_body
             (alter_at
                (fun n => set_childNodes (insert_nth newChild i (childNodes n)) n)
                parent (body w)) w)
    | None => Throws NotFoundError w
    end.

Definition has_token (token : string) (classes : list string) : bool :=
  existsb (String.eqb token) classes.

Definition classList_toggle (el : NodeRef) (token : string) : M unit :=
  modify (fun w =>
    with_body
      (alter_at
         (fun n =>
            if has_token token (classList n)
            then set_classList
                   (filter (fun c => negb (String.eqb token c)) (classList n)) n
            else set_classList (classList n ++ [token]) n)
         el (body w)) w).

Definition classList_contains (el : NodeRef) (token : string) : M bool :=
  get (fun w =>
         match node_at (body w) el with
         | Some n => has_token token (classList n)
         | None => false
         end).

Definition assign_innerText (el : NodeRef) (s : string) : M unit :=
  modify (fun w => with_body (alter_at (set_innerText s) el (body w)) w).

Definition addEventListener_click (el : NodeRef) (cb : Callback) : M unit :=
  modify (fun w => with_click_listeners (click_listeners w ++ [(el, cb)]) w).

(** The arrow function registered for ['click']; [button] and [list]
    are the variables it captures. *)
Definition toggle (button list : NodeRef) : M unit :=
  classList_toggle list "open" ;;
  open <- classList_contains list "open" ;;
  if open
  then assign_innerText button "> CERRAR COMANDOS"
  else assign_innerText button "> ABRIR COMANDOS".

Definition initMenu : M unit :=
  nav <- querySelector (SelTag "nav") ;;
  list <- querySelector (SelDescendant "nav" "ul") ;;
  match nav, list with
  | Some nav, Some list =>
      let button := createElement "button" in
      let button := set_id "menu-toggle" button in
      let button := set_innerText "> ABRIR COMANDOS" button in
      placed <- insertBefore nav button list ;;
      let (button, list) := placed : NodeRef * NodeRef in
      addEventListener_click button (fn_toggle button list)
  | _, _ => ret tt
  end.

End Menu.

(* ================================================================== *)
(** * The page: [DOMContentLoaded] and the host's event loop *)
(* ================================================================== *)

Module Page.
Import Dom.
Local Open Scope list_scope.
Local Open Scope dom_scope.

Definition DOMContentLoaded : M unit :=
  Crt.initCRT ;;
  Menu.initMenu.

Definition call (cb : Callback) : M unit :=
  match cb with
  | fn_resize => Crt.resize
  | fn_render startTime => Crt.render startTime
  | fn_toggle button list => Menu.toggle button list
  end.

(** What the host does to the page after it is loaded. *)
Inductive Event : Type :=
| Resize (iw ih : N)
| AnimationFrame (t : R)
| Click (target : NodeRef).

Fixpoint ref_eqb (p q : NodeRef) : bool :=
  match p, q with
  | [], [] => true
  | a :: p', b :: q' => Nat.eqb a b && ref_eqb p' q'
  | _, _ => false
  end.

(** Listeners run one after the other on the single thread; a listener
    that throws is reported by the host and the next one still runs. *)
Definition dispatch (cbs : list Callback) (w : World) : World :=
  fold_left (fun w cb => world_of (call cb w)) cbs w.

Definition listeners_on (target : NodeRef) (w : World) : list Callback :=
  map snd (filter (fun l => ref_eqb (fst l) target) (click_listeners w)).

Definition handle (e : Event) (w : World) : World :=
  match e with
  | Resize iw ih =>
      let w := with_window iw ih w in
      dispatch (resize_listeners w) w
  | AnimationFrame t =>
      let w := with_now t w in
      dispatch (frame_requests w) (with_frame_requests [] w)
  | Click target =>
      dispatch (listeners_on target w) w
  end.

Definition run (events : list Event) (w : World) : World :=
  fold_left (fun w e => handle e w) events w.

(** The page once the script has run on it. *)
Definition loaded (p : Platform) (doc : list Node) (iw ih : N) (t : R)
  : Outcome unit :=
  DOMContentLoaded (fresh p doc iw ih t).

(** The colour the fragment shader gives the pixel at [v_uv] in a draw. *)
Definition shade (d : Draw) (v_uv : Shader.vec2) : Shader.vec4 :=
  Shader.main v_uv (draw_time d)
    (Shader.mkvec2 (IZR (Z.of_N (fst (draw_resolution d))))
                   (IZR (Z.of_N (snd (draw_resolution d))))).

End Page.

(* ================================================================== *)
(** * Vocabulary of the properties *)
(* ================================================================== *)

Module ShaderSpec.
Import Shader.
Local Open Scope R_scope.

(** The Hermite polynomial [smoothstep] applies to its clamped argument. *)
Definition smooth_poly (t : R) : R := t * t * (3 - 2 * t).

(** The last two lines of the scanline block, as a function of the
    argument handed to [sin]. *)
Definition scanDark_of (phase : R) : R :=
  (1.0 - clamp (sin phase) 0.0 1.0) * 0.25.

(** The scanline block with the value of its constant left open: the
    source writes [3.14159265], and what number that is depends on the
    precision the implementation gives a [mediump float]. *)
Definition scanDark_at (c : R) (uv u_resolution : vec2) : R :=
  scanDark_of (scanlineY uv u_resolution * c).

(** The binary32 number nearest to [3.14159265]. *)
Definition binary32_pi : R := 13176795 / 4194304.

(** The unit square the full-screen quad is drawn over. *)
Definition in_viewport (uv : vec2) : Prop :=
  0 <= vx uv <= 1 /\ 0 <= vy uv <= 1.

Definition far_corner (uv : vec2) : Prop :=
  (vx uv = 0 \/ vx uv = 1) /\ (vy uv = 0 \/ vy uv = 1).

End ShaderSpec.

Module PageSpec.
Import Dom.
Local Open Scope string_scope.
Local Open Scope list_scope.

(** ** Platforms *)

Definition init_ok (p : Platform) : bool :=
  supports_webgl p
  && (creates_shader p GL_VERTEX_SHADER && compiles p GL_VERTEX_SHADER VERTEX_SHADER)
  && (creates_shader p GL_FRAGMENT_SHADER
      && compiles p GL_FRAGMENT_SHADER FRAGMENT_SHADER)
  && (creates_program p && links p).

Definition context_unavailable (p : Platform) : Prop :=
  supports_webgl p = false.

Definition compile_fails (p : Platform) (type : ShaderType) (source : ShaderSource)
  : Prop :=
  creates_shader p type = false \/ compiles p type source = false.

Definition link_fails (p : Platform) : Prop :=
  creates_program p = false \/ links p = false.

Definition init_fails (p : Platform) : Prop :=
  context_unavailable p
  \/ compile_fails p GL_VERTEX_SHADER VERTEX_SHADER
  \/ compile_fails p GL_FRAGMENT_SHADER FRAGMENT_SHADER
  \/ link_fails p.

Definition capable : Platform :=
  mkPlatform true (fun _ => true) (fun _ _ => true) true true.

Definition no_webgl : Platform :=
  mkPlatform false (fun _ => true) (fun _ _ => true) true true.

(** ** Worlds *)

(** The value an element's style gives a property: that of the first
    declaration naming it. *)
Definition style_value (property : string) (n : Node) : option CssValue :=
  option_map snd (find (fun d => String.eqb (fst d) property) (cssText n)).

(** Everything [initCRT] appends to [document.body]. *)
Definition overlay : list Node :=
  map Crt.layer_of Crt.bloomLayers ++ [Crt.canvas_element].

Definition draws_of (w : World) : list Draw :=
  match gl w with Some g => draws g | None => [] end.

Definition viewport_of (w : World) : option (N * N * N * N) :=
  option_map viewport (gl w).

Definition the_program : WebGLProgram :=
  mkProgram [mkShader GL_VERTEX_SHADER (Some VERTEX_SHADER);
             mkShader GL_FRAGMENT_SHADER (Some FRAGMENT_SHADER)].

(** The world [initCRT] leaves when every step succeeds. *)
Definition started (w : World) : World :=
  mkWorld (platform w) (body w ++ overlay) (innerWidth w) (innerHeight w) (now w)
    (innerWidth w) (innerHeight w)
    (Some (mkGL (0, 0, innerWidth w, innerHeight w)%N true
             (GL_ONE, GL_ONE_MINUS_SRC_ALPHA) (Some the_program) Crt.vertices
             0%R (0, 0)%N 0 []))
    (resize_listeners w ++ [fn_resize]) (click_listeners w)
    (frame_requests w ++ [fn_render (now w)]).

(** The world it leaves when it gives up. *)
Definition abandoned (w : World) : World :=
  with_gl (if supports_webgl (platform w)
           then Some (Crt.initial_gl (with_body (body w ++ overlay) w))
           else gl w)
    (with_body (body w ++ overlay) w).

Definition set_viewport (v : N * N * N * N) (g : GL) : GL :=
  mkGL v (blend g) (blendFunc g) (program_in_use g) (array_buffer g)
    (u_time g) (u_resolution g) (clears g) (draws g).

(** The world after one call of the closure [resize]. *)
Definition resized (w : World) : World :=
  mkWorld (platform w) (body w) (innerWidth w) (innerHeight w) (now w)
    (innerWidth w) (innerHeight w)
    (option_map (set_viewport (0, 0, innerWidth w, innerHeight w)%N) (gl w))
    (resize_listeners w) (click_listeners w) (frame_requests w).

Definition draw_frame (elapsed : R) (res : N * N) (g : GL) : GL :=
  mkGL (viewport g) (blend g) (blendFunc g) (program_in_use g) (array_buffer g)
    elapsed res (S (clears g))
    (draws g ++ [mkDraw elapsed res (viewport g) 0 4]).

(** The world after one call of the closure [render]. *)
Definition rendered (startTime : R) (w : World) : World :=
  mkWorld (platform w) (body w) (innerWidth w) (innerHeight w) (now w)
    (canvas_width w) (canvas_height w)
    (option_map
       (draw_frame ((now w - startTime) / 1000.0)%R (canvas_width w, canvas_height w))
       (gl w))
    (resize_listeners w) (click_listeners w)
    (frame_requests w ++ [fn_render startTime]).

Definition toggle_class (token : string) (n : Node) : Node :=
  if Menu.has_token token (classList n)
  then set_classList (filter (fun c => negb (String.eqb token c)) (classList n)) n
  else set_classList (classList n ++ [token]) n.

Definition label_for (open : bool) : string :=
  if open then "> CERRAR COMANDOS" else "> ABRIR COMANDOS".

Definition is_open (forest : list Node) (list : NodeRef) : bool :=
  match node_at forest list with
  | Some n => Menu.has_token "open" (classList n)
  | None => false
  end.

(** The world after one call of the click listener. *)
Definition toggled (button list : NodeRef) (w : World) : World :=
  let b := alter_at (toggle_class "open") list (body w) in
  with_body (alter_at (set_innerText (label_for (is_open b list))) button b) w.

Definition menu_button : Node :=
  set_innerText "> ABRIR COMANDOS" (set_id "menu-toggle" (createElement "button")).

Definition insert_child (x : Node) (i : nat) (n : Node) : Node :=
  set_childNodes (insert_nth x i (childNodes n)) n.

(** The world [initMenu] leaves when the button goes in. *)
Definition menu_installed (nav : NodeRef) (i : nat) (w : World) : World :=
  with_click_listeners
    (click_listeners w ++ [(nav ++ [i], fn_toggle (nav ++ [i]) (nav ++ [S i]))])
    (with_body (alter_at (insert_child menu_button i) nav (body w)) w).

(** The three ways [initMenu] can go. *)
Inductive MenuCase (w : World) : Outcome unit -> Prop :=
| menu_absent :
    select (SelTag "nav") (body w) = None
    \/ select (SelDescendant "nav" "ul") (body w) = None ->
    MenuCase w (Normal tt w)
| menu_misplaced nav list :
    select (SelTag "nav") (body w) = Some nav ->
    select (SelDescendant "nav" "ul") (body w) = Some list ->
    Menu.child_index nav list = None ->
    MenuCase w (Throws NotFoundError w)
| menu_placed nav list i :
    select (SelTag "nav") (body w) = Some nav ->
    select (SelDescendant "nav" "ul") (body w) = Some list ->
    Menu.child_index nav list = Some i ->
    MenuCase w (Normal tt (menu_installed nav i w)).

(** The node a relative path leads to; [[]] is the node itself. *)
Definition descend (n : Node) (p : NodeRef) : option Node :=
  match p with [] => Some n | _ => node_at (childNodes n) p end.

(** ** Runs *)

Fixpoint frame_times (events : list Page.Event) : list R :=
  match events with
  | [] => []
  | Page.AnimationFrame t :: events' => t :: frame_times events'
  | _ :: events' => frame_times events'
  end.

(** A path that stays inside the first [n] children of the body. *)
Definition below (n : nat) (p : NodeRef) : Prop :=
  match p with [] => True | j :: _ => (j < n)%nat end.

Definition toggles_below (n : nat) (cb : Callback) : Prop :=
  exists button list, cb = fn_toggle button list /\ below n button /\ below n list.

(** What holds of the page from the moment it is loaded: [n] is the
    number of children the body had, [t0] the clock at load, [ok]
    whether [initCRT] went through. *)
Record Inv (n : nat) (t0 : R) (ok : bool) (w : World) : Prop := mkInv {
  inv_resize : resize_listeners w = if ok then [fn_resize] else [];
  inv_frame : frame_requests w = if ok then [fn_render t0] else [];
  inv_click : Forall (fun l => toggles_below n (snd l)) (click_listeners w);
  inv_body : exists doc', body w = doc' ++ overlay /\ List.length doc' = n;
  inv_sync : if ok
             then canvas_width w = innerWidth w /\ canvas_height w = innerHeight w
                  /\ viewport_of w = Some (0, 0, innerWidth w, innerHeight w)%N
             else draws_of w = [] }.

(** ** Sample documents *)

Definition element (tag : string) (children : list Node) : Node :=
  mkNode tag "" [] "" [] children.

(** [<nav></nav><nav><ul></ul></nav>] *)
Definition two_navs : list Node :=
  [element "nav" []; element "nav" [element "ul" []]].

(** [<nav><div><ul></ul></div></nav>] *)
Definition wrapped_list : list Node :=
  [element "nav" [element "div" [element "ul" []]]].

(** [<header></header><nav><ul><li></li></ul></nav>] *)
Definition plain_menu : list Node :=
  [element "header" []; element "nav" [element "ul" [element "li" []]]].

End PageSpec.

(* ================================================================== *)
(** * Further vocabulary *)
(* ================================================================== *)

Module ShaderMore.
Import Shader.
Local Open Scope R_scope.

(** The attribute [a_position] as [vertexAttribPointer(posLoc, 2, ...)]
    reads it from the buffer: two numbers per vertex. *)
Fixpoint positions (data : list Z) : list vec2 :=
  match data with
  | x :: y :: rest => mkvec2 (IZR x) (IZR y) :: positions rest
  | _ => []
  end.

Definition mirror_x (uv : vec2) : vec2 := mkvec2 (1 - vx uv) (vy uv).
Definition mirror_y (uv : vec2) : vec2 := mkvec2 (vx uv) (1 - vy uv).
End ShaderMore.

Module PageMore.
Import Dom PageSpec.
Local Open Scope string_scope.
Local Open Scope list_scope.

(** The part of the context [initCRT] sets up and no closure writes. *)
Definition pipeline (g : GL)
  : bool * (BlendFactor * BlendFactor) * option WebGLProgram * list Z :=
  (blend g, blendFunc g, program_in_use g, array_buffer g).

Definition clears_of (w : World) : nat :=
  match gl w with Some g => clears g | None => 0%nat end.

(** The draws a run must issue, read off its events alone: [size] is
    the window size in force. *)
Fixpoint expected_draws (t0 : R) (size : N * N) (events : list Page.Event)
  : list Draw :=
  match events with
  | [] => []
  | Page.Resize iw ih :: events' => expected_draws t0 (iw, ih) events'
  | Page.AnimationFrame t :: events' =>
      mkDraw ((t - t0) / 1000) size (0, 0, fst size, snd size)%N 0 4
      :: expected_draws t0 size events'
  | Page.Click _ :: events' => expected_draws t0 size events'
  end.
(** The button is in place and is the only thing that listens for clicks. *)
Definition menu_ready (button list : NodeRef) (w : World) : Prop :=
  click_listeners w = [(button, fn_toggle button list)]
  /\ (exists b, node_at (body w) button = Some b)
  /\ (exists u, node_at (body w) list = Some u).
End PageMore.

(* ================================================================== *)
(** * Properties of the fragment shader *)
(* ================================================================== *)

Module ShaderFacts.
Import Shader ShaderSpec.
Local Open Scope R_scope.

(** ** Built-ins *)

Lemma clamp_bounds (x lo hi : R) : lo <= hi -> lo <= clamp x lo hi <= hi.
Proof.
  intros Hle. unfold clamp, Rmin, Rmax.
  destruct (Rle_dec x lo); destruct (Rle_dec _ hi); lra.
Qed.

Lemma clamp_inside (x lo hi : R) : lo <= x <= hi -> clamp x lo hi = x.
Proof.
  intros [H1 H2]. unfold clamp, Rmin, Rmax.
  destruct (Rle_dec x lo); destruct (Rle_dec _ hi); lra.
Qed.

Lemma clamp_below (x lo hi : R) : x <= lo -> lo <= hi -> clamp x lo hi = lo.
Proof.
  intros H1 H2. unfold clamp, Rmin, Rmax.
  destruct (Rle_dec x lo); destruct (Rle_dec _ hi); lra.
Qed.

Lemma clamp_above (x lo hi : R) : hi <= x -> lo <= hi -> clamp x lo hi = hi.
Proof.
  intros H1 H2. unfold clamp, Rmin, Rmax.
  destruct (Rle_dec x lo); destruct (Rle_dec _ hi); lra.
Qed.

Lemma fract_bounds (x : R) : 0 <= fract x < 1.
Proof.
  unfold fract, floor. destruct (Zfloor_bound x) as [H1 H2]. split; lra.
Qed.

Lemma hash_bounds (p : vec2) : 0 <= hash p < 1.
Proof. unfold hash. apply fract_bounds. Qed.

Lemma smooth_poly_bounds (t : R) : 0 <= t <= 1 -> 0 <= smooth_poly t <= 1.
Proof.
  intros Ht. unfold smooth_poly.
  assert (H0 : 0 <= t * t) by nra.
  assert (H1 : 0 <= (1 - t) * (1 - t) * (1 + 2 * t)).
  { apply Rmult_le_pos; nra. }
  split; nra.
Qed.

Lemma smooth_poly_mono (s t : R) :
  0 <= s -> s <= t -> t <= 1 -> smooth_poly s <= smooth_poly t.
Proof.
  intros Hs Hst Ht. unfold smooth_poly.
  assert (H : t * t * (3 - 2 * t) - s * s * (3 - 2 * s)
              = (t - s) * (3 * (t + s) - 2 * (t * t + t * s + s * s))) by ring.
  assert (H2 : 0 <= 3 * (t + s) - 2 * (t * t + t * s + s * s)) by nra.
  assert (H3 : 0 <= (t - s) * (3 * (t + s) - 2 * (t * t + t * s + s * s))).
  { apply Rmult_le_pos; lra. }
  lra.
Qed.

Lemma smoothstep_bounds (e0 e1 x : R) : 0 <= smoothstep e0 e1 x <= 1.
Proof.
  unfold smoothstep. cbv zeta.
  apply (smooth_poly_bounds (clamp ((x - e0) / (e1 - e0)) 0 1)).
  apply clamp_bounds. lra.
Qed.

Lemma sqrt_lower (a x : R) : 0 <= a -> a * a <= x -> a <= sqrt x.
Proof.
  intros Ha Hx. rewrite <- (sqrt_square a Ha). apply sqrt_le_1_alt. exact Hx.
Qed.

(** The quad's corners are the corners of the unit square. *)
Lemma v_uv_in_viewport (a_position : vec2) :
  -1 <= vx a_position <= 1 -> -1 <= vy a_position <= 1 ->
  in_viewport (v_uv_of a_position).
Proof.
  intros Hx Hy. unfold in_viewport, v_uv_of, vadd_s, vscale. simpl. lra.
Qed.

(** ** Vignette *)

Lemma smoothstep_vig (d : R) :
  smoothstep 0.6 1.4 d = smooth_poly (clamp ((d - 0.6) / 0.8) 0 1).
Proof.
  unfold smoothstep, smooth_poly. cbv zeta.
  replace (1.4 - 0.6) with 0.8 by lra. reflexivity.
Qed.

Lemma vigDark_of_dist (uv : vec2) (lo hi : R) :
  0.6 <= lo -> lo <= vigDist uv <= hi -> hi <= 1.4 ->
  smooth_poly ((lo - 0.6) / 0.8) * 0.75 <= vigDark uv
    <= smooth_poly ((hi - 0.6) / 0.8) * 0.75.
Proof.
  intros Hlo [H1 H2] Hhi. unfold vigDark. rewrite smoothstep_vig.
  rewrite clamp_inside by (split; lra).
  split; apply Rmult_le_compat_r; try lra; apply smooth_poly_mono; lra.
Qed.

Lemma vigDist_eq (uv : vec2) :
  vigDist uv = sqrt ((2 * vx uv - 1) * 0.7 * ((2 * vx uv - 1) * 0.7)
                     + (2 * vy uv - 1) * 0.5 * ((2 * vy uv - 1) * 0.5)).
Proof.
  unfold vigDist, length, dot, vmul, vigCoord, vsub_s, vscale. simpl.
  f_equal. lra.
Qed.

Lemma vigDist_corner (uv : vec2) : far_corner uv -> vigDist uv = sqrt 0.74.
Proof.
  intros [Hx Hy]. rewrite vigDist_eq. f_equal.
  destruct Hx as [-> | ->]; destruct Hy as [-> | ->]; lra.
Qed.

Lemma sqrt_074_bounds : 0.86 < sqrt 0.74 < 0.861.
Proof.
  split.
  - apply Rlt_le_trans with (sqrt (0.8601 * 0.8601)).
    + rewrite sqrt_square by lra. lra.
    + apply sqrt_le_1_alt. lra.
  - apply Rle_lt_trans with (sqrt (0.8609 * 0.8609)).
    + apply sqrt_le_1_alt. lra.
    + rewrite sqrt_square by lra. lra.
Qed.

Lemma vigDist_viewport (uv : vec2) : in_viewport uv -> vigDist uv <= sqrt 0.74.
Proof.
  intros [[Hx0 Hx1] [Hy0 Hy1]]. rewrite vigDist_eq. apply sqrt_le_1_alt.
  assert (Hx : (2 * vx uv - 1) * (2 * vx uv - 1) <= 1) by nra.
  assert (Hy : (2 * vy uv - 1) * (2 * vy uv - 1) <= 1) by nra.
  nra.
Qed.

Lemma vigDark_center : vigDark (mkvec2 0.5 0.5) = 0.
Proof.
  unfold vigDark. rewrite smoothstep_vig, vigDist_eq. simpl.
  replace (_ + _) with 0 by lra. rewrite sqrt_0.
  rewrite clamp_below by lra. unfold smooth_poly. lra.
Qed.

Lemma vigDark_saturated (uv : vec2) : 1.4 <= vigDist uv -> vigDark uv = 0.75.
Proof.
  intros H. unfold vigDark. rewrite smoothstep_vig.
  rewrite clamp_above by lra. unfold smooth_poly. lra.
Qed.

Lemma vigDark_viewport (uv : vec2) : in_viewport uv -> 0 <= vigDark uv < 0.19.
Proof.
  intros Hv. pose proof (vigDist_viewport uv Hv) as Hd.
  pose proof sqrt_074_bounds as [_ Hs].
  split.
  - unfold vigDark. pose proof (smoothstep_bounds 0.6 1.4 (vigDist uv)). lra.
  - destruct (Rle_dec 0.6 (vigDist uv)) as [Hge | Hlt].
    + pose proof (vigDark_of_dist uv 0.6 0.861 (Rle_refl _)) as H.
      destruct H as [_ H]; [lra | lra |].
      unfold smooth_poly in H. lra.
    + unfold vigDark. rewrite smoothstep_vig.
      rewrite clamp_below by lra. unfold smooth_poly. lra.
Qed.

Lemma vigDark_corner (uv : vec2) : far_corner uv -> 0.18 < vigDark uv < 0.19.
Proof.
  intros Hc. pose proof (vigDist_corner uv Hc) as Hd.
  pose proof sqrt_074_bounds as [Hs1 Hs2].
  pose proof (vigDark_of_dist uv 0.86 0.861) as H.
  destruct H as [H1 H2]; [lra | lra | lra |].
  unfold smooth_poly in *. lra.
Qed.

(** ** Scanlines *)

(** Six terms of the series for [2 atan (1/3) + atan (1/7)] on either side. *)
Lemma PI_digits : 3.141592653 < PI < 3.141592654.
Proof.
  pose proof (PI_2_3_7_ineq 5) as H.
  unfold PI_2_3_7_tg, tg_alt, Ratan_seq in H. simpl in H. lra.
Qed.

Lemma sin_le_arg (x : R) : 0 <= x -> sin x <= x.
Proof.
  intros [H | <-]; [left; apply sin_lt_x; exact H | rewrite sin_0; lra].
Qed.

Lemma cos_lower (x : R) : 0 <= x -> x <= PI -> 1 - x * x / 2 <= cos x.
Proof.
  intros H0 H1.
  replace (cos x) with (cos (2 * (x / 2))) by (f_equal; field).
  rewrite cos_2a_sin.
  assert (Hs0 : 0 <= sin (x / 2)) by (apply sin_ge_0; lra).
  assert (Hs1 : sin (x / 2) <= x / 2) by (apply sin_le_arg; lra).
  nra.
Qed.

Lemma scanlineY_eq (uv res : vec2) : scanlineY uv res = vy uv * vy res.
Proof.
  unfold scanlineY, scanThickness. replace 1.0 with 1 by lra. field.
Qed.

Lemma scanDark_eq (uv res : vec2) :
  scanDark uv res = (1 - clamp (sin (vy uv * vy res * 3.14159265)) 0 1) * 0.25.
Proof.
  unfold scanDark, scanline. rewrite scanlineY_eq.
  replace 1.0 with 1 by lra. replace 0.0 with 0 by lra. reflexivity.
Qed.

Lemma scanDark_range (uv res : vec2) : 0 <= scanDark uv res <= 0.25.
Proof.
  rewrite scanDark_eq.
  pose proof (clamp_bounds (sin (vy uv * vy res * 3.14159265)) 0 1). lra.
Qed.

Lemma abs_between (x a : R) : Rabs x <= a -> - a <= x <= a.
Proof.
  intros H. unfold Rabs in H. destruct (Rcase_abs x); lra.
Qed.

(** The constant as written and as a binary32 are both within 1e-7 of
    [PI], on either side of it. *)
Lemma constant_readings :
  PI - 1 / 10 ^ 7 < 3.14159265 < PI /\ PI < binary32_pi < PI + 1 / 10 ^ 7.
Proof.
  pose proof PI_digits as [P0 P1]. unfold binary32_pi. simpl. lra.
Qed.

Lemma scanDark_is_at (uv res : vec2) : scanDark uv res = scanDark_at 3.14159265 uv res.
Proof. reflexivity. Qed.

Lemma scanDark_at_eq (c : R) (uv res : vec2) :
  scanDark_at c uv res = (1 - clamp (sin (vy uv * vy res * c)) 0 1) * 0.25.
Proof.
  unfold scanDark_at, scanDark_of. rewrite scanlineY_eq.
  replace 1.0 with 1 by lra. replace 0.0 with 0 by lra. reflexivity.
Qed.

Lemma scanDark_of_eq (phase : R) :
  scanDark_of phase = (1 - clamp (sin phase) 0 1) * 0.25.
Proof.
  unfold scanDark_of. replace 1.0 with 1 by lra. replace 0.0 with 0 by lra.
  reflexivity.
Qed.

Lemma scanDark_of_range (phase : R) : 0 <= scanDark_of phase <= 0.25.
Proof.
  rewrite scanDark_of_eq. pose proof (clamp_bounds (sin phase) 0 1). lra.
Qed.

Lemma abs_sin_le (d : R) : Rabs (sin d) <= Rabs d.
Proof.
  destruct (Rle_dec 0 d) as [Hd | Hd].
  - destruct (Rle_dec d PI) as [Hp | Hp].
    + rewrite (Rabs_pos_eq d Hd), Rabs_pos_eq by (apply sin_ge_0; lra).
      apply sin_le_arg. exact Hd.
    + pose proof (SIN_bound d) as [S0 S1]. pose proof PI_digits as [P0 _].
      rewrite (Rabs_pos_eq d Hd). apply Rabs_le. simpl in P0. lra.
  - assert (Hn : d < 0) by lra.
    rewrite (Rabs_left d Hn). apply Rabs_le. split.
    + pose proof (sin_gt_x d Hn). lra.
    + destruct (Rle_dec (- PI) d) as [Hp | Hp].
      * assert (sin d <= 0).
        { rewrite <- (Ropp_involutive d), sin_neg.
          assert (0 <= sin (- d)) by (apply sin_ge_0; lra). lra. }
        lra.
      * pose proof (SIN_bound d) as [S0 S1]. pose proof PI_digits as [P0 _].
        simpl in P0. lra.
Qed.

Lemma cos_near_zero (d e : R) :
  Rabs d <= e -> e <= 1 -> 1 - e * e / 2 <= cos d <= 1.
Proof.
  intros Hd He. apply abs_between in Hd. pose proof PI_digits as [P0 _].
  simpl in P0. pose proof (COS_bound d) as [_ C1]. split; [| exact C1].
  destruct (Rle_dec 0 d) as [H0 | H0].
  - pose proof (cos_lower d H0). assert (d * d <= e * e) by nra. lra.
  - rewrite <- cos_neg. pose proof (cos_lower (- d)).
    assert (d * d <= e * e) by nra.
    assert (1 - - d * - d / 2 <= cos (- d)) by (apply H; lra). nra.
Qed.

(** Whole turns drop out of the sine. *)
Lemma sin_turns (x : R) (k : nat) : sin (x + 2 * INR k * PI) = sin x.
Proof. apply sin_period. Qed.

Lemma sin_half_turns (x : R) (k : nat) : Rabs (sin (x + INR k * PI)) = Rabs (sin x).
Proof.
  induction k as [| k IH].
  - simpl. rewrite Rmult_0_l, Rplus_0_r. reflexivity.
  - rewrite S_INR.
    replace (x + (INR k + 1) * PI) with (x + INR k * PI + PI) by ring.
    rewrite neg_sin, Rabs_Ropp. exact IH.
Qed.

Section Phases.
Variables (phase e : R) (k : nat).
Hypothesis e_small : 0 <= e <= 1.

Lemma lit_centre :
  Rabs (phase - (2 * INR k + 1 / 2) * PI) <= e ->
  0 <= scanDark_of phase <= e * e / 8.
Proof.
  intros H. rewrite scanDark_of_eq.
  set (d := phase - (2 * INR k + 1 / 2) * PI) in *.
  assert (Hs : sin phase = cos d).
  { replace phase with (PI / 2 + d + 2 * INR k * PI) by (unfold d; field).
    rewrite sin_turns. symmetry. apply cos_sin. }
  rewrite Hs. destruct (cos_near_zero d e H (proj2 e_small)) as [C0 C1].
  rewrite clamp_inside by (split; nra). split; nra.
Qed.

Lemma dark_centre :
  Rabs (phase - (2 * INR k + 3 / 2) * PI) <= 1 -> scanDark_of phase = 0.25.
Proof.
  intros H. rewrite scanDark_of_eq. apply abs_between in H.
  pose proof PI_digits as [P0 P1]. simpl in *.
  assert (Hs : sin phase < 0).
  { replace phase with (phase - 2 * INR k * PI + 2 * INR k * PI) by ring.
    rewrite sin_turns. apply sin_lt_0; lra. }
  rewrite clamp_below by lra. lra.
Qed.

Lemma row_boundary :
  Rabs (phase - INR k * PI) <= e -> 0.25 - e / 4 <= scanDark_of phase <= 0.25.
Proof.
  intros H. rewrite scanDark_of_eq.
  assert (Hs : Rabs (sin phase) <= e).
  { replace phase with (phase - INR k * PI + INR k * PI) by ring.
    rewrite sin_half_turns.
    apply Rle_trans with (2 := H). apply abs_sin_le. }
  apply abs_between in Hs.
  pose proof (clamp_bounds (sin phase) 0 1 Rle_0_1) as [B0 B1].
  assert (Hc : clamp (sin phase) 0 1 <= e).
  { destruct (Rle_dec (sin phase) 0) as [Hn | Hn].
    - rewrite clamp_below by lra. lra.
    - rewrite clamp_inside by (pose proof (SIN_bound phase); lra). lra. }
  split; lra.
Qed.
End Phases.

Lemma dark_half (phase : R) (k : nat) :
  (2 * INR k + 1) * PI <= phase <= (2 * INR k + 2) * PI -> scanDark_of phase = 0.25.
Proof.
  intros H. rewrite scanDark_of_eq.
  assert (Hs : sin phase <= 0).
  { replace phase with (phase - 2 * INR k * PI + 2 * INR k * PI) by ring.
    rewrite sin_turns. apply sin_le_0; lra. }
  rewrite clamp_below by lra. lra.
Qed.

Lemma lit_half (phase : R) (k : nat) :
  2 * INR k * PI < phase < (2 * INR k + 1) * PI -> 0 <= scanDark_of phase < 0.25.
Proof.
  intros H. rewrite scanDark_of_eq.
  assert (Hs : 0 < sin phase).
  { replace phase with (phase - 2 * INR k * PI + 2 * INR k * PI) by ring.
    rewrite sin_turns. apply sin_gt_0; lra. }
  pose proof (SIN_bound phase) as [_ S1].
  rewrite clamp_inside by lra. lra.
Qed.

(** ** The output of [main] *)

(** C1: for every coordinate, time and resolution the fragment colour
    is the pair of the zero RGB vector and the darkness
    [clamp (scanDark + vigDark + flickerDark) 0 1]; the darkness lies
    in [[0,1]], as does the clamp of any sum of three terms. *)
Theorem fragment_output (v_uv : vec2) (u_time : R) (u_resolution : vec2) :
  main v_uv u_time u_resolution
  = mkvec4 (mkvec3 0 0 0)
      (clamp (scanDark v_uv u_resolution + vigDark v_uv + flickerDark u_time) 0 1)
  /\ 0 <= alpha (main v_uv u_time u_resolution) <= 1
  /\ (forall a b c : R, 0 <= clamp (a + b + c) 0 1 <= 1).
Proof.
  split; [| split].
  - unfold main, totalAdd, totalDark.
    replace 0.0 with 0 by lra. replace 1.0 with 1 by lra. reflexivity.
  - simpl. unfold totalDark.
    pose proof (clamp_bounds
                  (scanDark v_uv u_resolution + vigDark v_uv + flickerDark u_time)
                  0.0 1.0).
    lra.
  - intros a b c. apply clamp_bounds. lra.
Qed.

(** C2, amended: the vignette darkening is
    [smoothstep 0.6 1.4 d * 0.75] with [d] the length of the centred
    coordinate scaled by (0.7, 0.5); it is 0 at the centre and 0.75
    wherever [d >= 1.4]; the far corners of the viewport lie at
    [d = sqrt 0.74] and receive between 0.18 and 0.19, and no
    coordinate of the viewport reaches 0.19. *)
Theorem vignette_profile (uv : vec2) :
  vigDark uv = smoothstep 0.6 1.4 (vigDist uv) * 0.75
  /\ vigDist uv = sqrt ((2 * vx uv - 1) * 0.7 * ((2 * vx uv - 1) * 0.7)
                        + (2 * vy uv - 1) * 0.5 * ((2 * vy uv - 1) * 0.5))
  /\ vigDark (mkvec2 0.5 0.5) = 0
  /\ (1.4 <= vigDist uv -> vigDark uv = 0.75)
  /\ (far_corner uv -> vigDist uv = sqrt 0.74 /\ 0.18 < vigDark uv < 0.19)
  /\ (in_viewport uv -> 0 <= vigDark uv < 0.19).
Proof.
  split; [reflexivity |]. split; [apply vigDist_eq |].
  split; [apply vigDark_center |]. split; [apply vigDark_saturated |].
  split; [| apply vigDark_viewport].
  intros Hc. split; [apply vigDist_corner | apply vigDark_corner]; exact Hc.
Qed.

Lemma vignette_profile_witness :
  (1.4 <= vigDist (mkvec2 2 0.5) /\ vigDark (mkvec2 2 0.5) = 0.75)
  /\ (far_corner (mkvec2 1 1) /\ in_viewport (mkvec2 1 1)
      /\ 0.18 < vigDark (mkvec2 1 1) < 0.19).
Proof.
  assert (Hd : 1.4 <= vigDist (mkvec2 2 0.5)).
  { rewrite vigDist_eq. simpl. apply sqrt_lower; lra. }
  assert (Hc : far_corner (mkvec2 1 1)) by (split; right; reflexivity).
  assert (Hv : in_viewport (mkvec2 1 1)) by (split; simpl; lra).
  split.
  - split; [exact Hd |].
    exact (proj1 (proj2 (proj2 (proj2 (vignette_profile (mkvec2 2 0.5))))) Hd).
  - split; [exact Hc |]. split; [exact Hv |].
    exact (proj2 (proj1 (proj2 (proj2 (proj2 (proj2
             (vignette_profile (mkvec2 1 1)))))) Hc)).
Defined.

(** C2 as stated fails at the corner (1,1): it is darkened by less
    than 0.75. *)
Lemma corner_is_not_fully_dark :
  far_corner (mkvec2 1 1) /\ vigDark (mkvec2 1 1) < 0.75.
Proof.
  assert (Hc : far_corner (mkvec2 1 1)) by (split; right; reflexivity).
  split; [exact Hc |]. pose proof (vigDark_corner _ Hc). lra.
Qed.

(** C3, amended: the scanline darkening is
    [(1 - clamp (sin (row * c)) 0 1) * 0.25] with [row = y * height]
    and [c] the value of the shader's constant for pi, always within
    [[0, 0.25]].  The bands repeat every two rows, not every row:
    where the phase [row * c] is within [e <= 1] of [(2k + 1/2) PI],
    the centre of an even row, the darkening is at most [e * e / 8];
    where it is within 1 of [(2k + 3/2) PI], the centre of an odd row,
    the darkening is exactly 0.25; where it is within [e] of a
    multiple of [PI], a boundary between rows, the darkening is at
    least [0.25 - e / 4]. *)
Theorem scanline_profile (c : R) (uv res : vec2) (k : nat) (e : R) :
  scanDark uv res = scanDark_at 3.14159265 uv res
  /\ scanDark_at c uv res = (1 - clamp (sin (vy uv * vy res * c)) 0 1) * 0.25
  /\ 0 <= scanDark_at c uv res <= 0.25
  /\ (0 <= e <= 1 ->
      (Rabs (vy uv * vy res * c - (2 * INR k + 1 / 2) * PI) <= e ->
       0 <= scanDark_at c uv res <= e * e / 8)
      /\ (Rabs (vy uv * vy res * c - (2 * INR k + 3 / 2) * PI) <= 1 ->
          scanDark_at c uv res = 0.25)
      /\ (Rabs (vy uv * vy res * c - INR k * PI) <= e ->
          0.25 - e / 4 <= scanDark_at c uv res <= 0.25)).
Proof.
  split; [reflexivity |]. split; [apply scanDark_at_eq |].
  unfold scanDark_at. rewrite scanlineY_eq.
  split; [apply scanDark_of_range |].
  intros He. split; [| split].
  - intros H. exact (lit_centre _ e k He H).
  - intros H. exact (dark_centre _ k H).
  - intros H. exact (row_boundary _ e k He H).
Qed.

Lemma scanline_profile_witness :
  0 <= 1 / 10 ^ 6 <= 1
  /\ (Rabs (vy (mkvec2 0 0.5) * vy (mkvec2 1 1) * binary32_pi
            - (2 * INR 0 + 1 / 2) * PI) <= 1 / 10 ^ 6
      /\ 0 <= scanDark_at binary32_pi (mkvec2 0 0.5) (mkvec2 1 1)
         <= 1 / 10 ^ 6 * (1 / 10 ^ 6) / 8)
  /\ (Rabs (vy (mkvec2 0 0.75) * vy (mkvec2 1 2) * binary32_pi
            - (2 * INR 0 + 3 / 2) * PI) <= 1
      /\ scanDark_at binary32_pi (mkvec2 0 0.75) (mkvec2 1 2) = 0.25)
  /\ (Rabs (vy (mkvec2 0 0.5) * vy (mkvec2 1 2) * binary32_pi - INR 1 * PI)
        <= 1 / 10 ^ 6
      /\ 0.25 - 1 / 10 ^ 6 / 4
         <= scanDark_at binary32_pi (mkvec2 0 0.5) (mkvec2 1 2) <= 0.25).
Proof.
  assert (He : 0 <= 1 / 10 ^ 6 <= 1) by (simpl; lra).
  assert (Hp : Rabs (vy (mkvec2 0 0.5) * vy (mkvec2 1 1) * binary32_pi
                     - (2 * INR 0 + 1 / 2) * PI) <= 1 / 10 ^ 6).
  { pose proof PI_digits as [P0 P1]. unfold binary32_pi.
    apply Rabs_le. simpl in *. lra. }
  assert (Hd : Rabs (vy (mkvec2 0 0.75) * vy (mkvec2 1 2) * binary32_pi
                     - (2 * INR 0 + 3 / 2) * PI) <= 1).
  { pose proof PI_digits as [P0 P1]. unfold binary32_pi.
    apply Rabs_le. simpl in *. lra. }
  assert (Hb : Rabs (vy (mkvec2 0 0.5) * vy (mkvec2 1 2) * binary32_pi
                     - INR 1 * PI) <= 1 / 10 ^ 6).
  { pose proof PI_digits as [P0 P1]. unfold binary32_pi.
    apply Rabs_le. simpl in *. lra. }
  split; [exact He |]. split; [| split]; (split; [eassumption |]).
  - exact (proj1 (proj2 (proj2 (proj2
             (scanline_profile binary32_pi (mkvec2 0 0.5) (mkvec2 1 1) 0 (1 / 10 ^ 6))))
             He) Hp).
  - exact (proj1 (proj2 (proj2 (proj2 (proj2
             (scanline_profile binary32_pi (mkvec2 0 0.75) (mkvec2 1 2) 0 (1 / 10 ^ 6))))
             He)) Hd).
  - exact (proj2 (proj2 (proj2 (proj2 (proj2
             (scanline_profile binary32_pi (mkvec2 0 0.5) (mkvec2 1 2) 1 (1 / 10 ^ 6))))
             He)) Hb).
Defined.

(** C3 as stated fails at y = 0.75 on a surface two rows high: the
    coordinate is the centre of row 1, and it is darkened by the full
    0.25, with the constant read as written and read as a binary32
    alike. *)
Lemma odd_row_center_is_dark :
  vy (mkvec2 0 0.75) * vy (mkvec2 1 2) = 1 + 1 / 2
  /\ scanDark (mkvec2 0 0.75) (mkvec2 1 2) = 0.25
  /\ scanDark_at binary32_pi (mkvec2 0 0.75) (mkvec2 1 2) = 0.25.
Proof.
  split; [simpl; lra |].
  change (scanDark_at 3.14159265 (mkvec2 0 0.75) (mkvec2 1 2) = 0.25
          /\ scanDark_at binary32_pi (mkvec2 0 0.75) (mkvec2 1 2) = 0.25).
  unfold scanDark_at. rewrite scanlineY_eq.
  pose proof PI_digits as [P0 P1].
  split; apply (dark_centre _ 0); unfold binary32_pi;
    apply Rabs_le; simpl in *; lra.
Qed.

(** C4: the flicker darkening is
    [(hash (floor (t * 30), 0) - 0.5) * 0.08] with [hash] in [[0,1)];
    two times with the same [floor (30 t)] get the same value, the
    value lies in [[-0.04, 0.04]], and it is the same term at every
    pixel of the frame. *)
Theorem flicker_per_tick (t1 t2 : R) (uv res : vec2) :
  flickerDark t1 = (hash (mkvec2 (floor (t1 * 30)) 0) - 0.5) * 0.08
  /\ (forall p : vec2, 0 <= hash p < 1)
  /\ (floor (30 * t1) = floor (30 * t2) -> flickerDark t1 = flickerDark t2)
  /\ -0.04 <= flickerDark t1 <= 0.04
  /\ totalDark uv t1 res
     = clamp (scanDark uv res + vigDark uv + flickerDark t1) 0 1.
Proof.
  split.
  { unfold flickerDark. replace 30.0 with 30 by lra. replace 0.0 with 0 by lra.
    reflexivity. }
  split; [exact hash_bounds |].
  split.
  { intros H. unfold flickerDark.
    replace (t1 * 30.0) with (30 * t1) by lra.
    replace (t2 * 30.0) with (30 * t2) by lra. rewrite H. reflexivity. }
  split.
  { unfold flickerDark.
    pose proof (hash_bounds (mkvec2 (floor (t1 * 30.0)) 0.0)). lra. }
  unfold totalDark. replace 0.0 with 0 by lra. replace 1.0 with 1 by lra.
  reflexivity.
Qed.

Lemma flicker_per_tick_witness :
  floor (30 * 0) = floor (30 * 0.02) /\ flickerDark 0 = flickerDark 0.02.
Proof.
  assert (H : floor (30 * 0) = floor (30 * 0.02)).
  { unfold floor. rewrite (Zfloor_eq 0 (30 * 0)) by (simpl; lra).
    rewrite (Zfloor_eq 0 (30 * 0.02)) by (simpl; lra). reflexivity. }
  split; [exact H |].
  exact (proj1 (proj2 (proj2
           (flicker_per_tick 0 0.02 (mkvec2 0 0) (mkvec2 0 0)))) H).
Defined.

(** C9: the row index divides by the constant [scanThickness = 1]
    only and multiplies by the resolution height; on a surface of
    height zero the row index is 0, its sine 0, and the scanline
    darkening 0.25 at every coordinate. *)
Theorem zero_resolution_rows (uv : vec2) (width : R) :
  scanThickness = 1 /\ scanThickness <> 0
  /\ (forall res : vec2, scanlineY uv res = vy uv * vy res / scanThickness)
  /\ scanlineY uv (mkvec2 width 0) = 0
  /\ scanline uv (mkvec2 width 0) = 0
  /\ scanDark uv (mkvec2 width 0) = 0.25.
Proof.
  assert (Hy : scanlineY uv (mkvec2 width 0) = 0).
  { rewrite scanlineY_eq. simpl. ring. }
  assert (Hs : scanline uv (mkvec2 width 0) = 0).
  { unfold scanline. rewrite Hy, Rmult_0_l. apply sin_0. }
  unfold scanThickness.
  split; [lra |]. split; [lra |]. split; [reflexivity |].
  split; [exact Hy |]. split; [exact Hs |].
  unfold scanDark. rewrite Hs, clamp_inside by lra. lra.
Qed.

End ShaderFacts.

(* ================================================================== *)
(** * Properties of the page *)
(* ================================================================== *)

Module PageFacts.
Import Dom PageSpec.
Local Open Scope string_scope.
Local Open Scope list_scope.

(** ** [initCRT], outcome by outcome *)

Lemma forEach_appendChild (l : list Node) (w : World) :
  forEach l Crt.appendChild w = Normal tt (with_body (body w ++ l) w).
Proof.
  revert w. induction l as [| n l IH]; intros w; simpl.
  - rewrite app_nil_r. destruct w; reflexivity.
  - unfold bind. unfold Crt.appendChild at 1. unfold modify.
    rewrite IH. simpl. rewrite <- app_assoc. reflexivity.
Qed.

Lemma forEach_map {A : Type} (f : A -> Node) (l : list A) (w : World) :
  forEach l (fun a => Crt.appendChild (f a)) w = forEach (map f l) Crt.appendChild w.
Proof.
  revert w. induction l as [| a l IH]; intros w; simpl; [reflexivity |].
  unfold bind. destruct (Crt.appendChild (f a) w); [apply IH | reflexivity].
Qed.

Ltac crt_unfold :=
  unfold Crt.initCRT, Crt.compileShader, Crt.linkProgram, Crt.getContext,
    Crt.createShader, Crt.COMPILE_STATUS, Crt.deleteShader, Crt.createProgram,
    Crt.LINK_STATUS, Crt.deleteProgram, Crt.bufferData, Crt.useProgram,
    Crt.enable_BLEND, Crt.gl_blendFunc, Crt.addEventListener_resize,
    Crt.resize, Crt.gl_viewport, Crt.performance_now, Crt.requestAnimationFrame,
    Crt.gl_call, Crt.appendChild, bind, ret, get, modify.

Lemma initCRT_started (w : World) :
  init_ok (platform w) = true -> Crt.initCRT w = Normal tt (started w).
Proof.
  unfold init_ok. intros H.
  repeat (apply andb_prop in H; destruct H as [H ?]).
  repeat match goal with H : _ && _ = true |- _ => apply andb_prop in H; destruct H end.
  unfold Crt.initCRT. unfold bind at 1. rewrite forEach_map, forEach_appendChild.
  crt_unfold. simpl.
  repeat match goal with H : _ = true |- _ => rewrite H; simpl end.
  unfold started, overlay. rewrite <- app_assoc. reflexivity.
Qed.

Lemma initCRT_abandoned (w : World) :
  init_ok (platform w) = false -> Crt.initCRT w = Normal tt (abandoned w).
Proof.
  unfold init_ok. intros H.
  unfold Crt.initCRT. unfold bind at 1. rewrite forEach_map, forEach_appendChild.
  crt_unfold. simpl. unfold abandoned, overlay. rewrite <- app_assoc.
  destruct (supports_webgl (platform w)); simpl in *; [| reflexivity].
  destruct (creates_shader (platform w) GL_VERTEX_SHADER); simpl in *;
  destruct (compiles (platform w) GL_VERTEX_SHADER VERTEX_SHADER); simpl in *;
  destruct (creates_shader (platform w) GL_FRAGMENT_SHADER); simpl in *;
  try destruct (compiles (platform w) GL_FRAGMENT_SHADER FRAGMENT_SHADER); simpl in *;
  try reflexivity;
  destruct (creates_program (platform w)); simpl in *; try reflexivity;
  destruct (links (platform w)); simpl in *; try reflexivity; discriminate.
Qed.

(** ** The three closures, as functions on worlds *)

Lemma resize_eq (w : World) : Crt.resize w = Normal tt (resized w).
Proof.
  unfold Crt.resize, Crt.gl_viewport, Crt.gl_call, bind, get, modify, resized.
  simpl. destruct (gl w); reflexivity.
Qed.

Lemma render_eq (startTime : R) (w : World) :
  Crt.render startTime w = Normal tt (rendered startTime w).
Proof.
  unfold Crt.render, Crt.performance_now, Crt.uniform1f_u_time,
    Crt.uniform2f_u_resolution, Crt.clear_COLOR_BUFFER_BIT,
    Crt.drawArrays_TRIANGLE_STRIP, Crt.requestAnimationFrame, Crt.gl_call,
    bind, get, modify, rendered.
  cbn [with_gl with_frame_requests platform body innerWidth innerHeight now
       canvas_width canvas_height gl resize_listeners click_listeners
       frame_requests option_map].
  destruct (gl w); reflexivity.
Qed.

Lemma toggle_eq (button list : NodeRef) (w : World) :
  Menu.toggle button list w = Normal tt (toggled button list w).
Proof.
  unfold Menu.toggle, Menu.classList_toggle, Menu.classList_contains,
    Menu.assign_innerText, bind, get, modify, toggled, is_open, label_for.
  cbn [with_body body]. fold (toggle_class "open").
  destruct (node_at _ list) as [n |]; [destruct (Menu.has_token "open" (classList n)) |];
    destruct w; reflexivity.
Qed.

Lemma call_returns (cb : Callback) (w : World) :
  exists w', Page.call cb w = Normal tt w'.
Proof.
  destruct cb; simpl; eexists;
    [apply resize_eq | apply render_eq | apply toggle_eq].
Qed.

(** ** What stays true while the page lives *)

Lemma alter_nth_length {A : Type} (g : A -> A) (i : nat) (l : list A) :
  List.length (alter_nth g i l) = List.length l.
Proof.
  revert i. induction l as [| a l IH]; intros [| i]; simpl; auto.
Qed.

Lemma alter_nth_app {A : Type} (g : A -> A) (i : nat) (l r : list A) :
  (i < List.length l)%nat -> alter_nth g i (l ++ r) = alter_nth g i l ++ r.
Proof.
  revert i. induction l as [| a l IH]; intros i Hi; simpl in Hi; [lia |].
  destruct i as [| i]; simpl; [reflexivity |]. rewrite IH by lia. reflexivity.
Qed.

Lemma alter_at_below (g : Node -> Node) (p : NodeRef) (doc rest : list Node) :
  below (List.length doc) p ->
  alter_at g p (doc ++ rest) = alter_at g p doc ++ rest
  /\ List.length (alter_at g p doc) = List.length doc.
Proof.
  destruct p as [| j p]; intros Hb; simpl.
  - split; reflexivity.
  - simpl in Hb. split; [apply alter_nth_app; exact Hb | apply alter_nth_length].
Qed.

Lemma toggled_body (n : nat) (button list : NodeRef) (w : World) :
  below n button -> below n list ->
  (exists doc', body w = doc' ++ overlay /\ List.length doc' = n) ->
  exists doc', body (toggled button list w) = doc' ++ overlay /\ List.length doc' = n.
Proof.
  intros Hb Hl (doc & Hbody & Hlen). unfold toggled. cbn [body with_body].
  rewrite Hbody. subst n.
  destruct (alter_at_below (toggle_class "open") list doc overlay Hl) as [E1 L1].
  rewrite E1.
  set (lbl := label_for _).
  rewrite <- L1 in Hb.
  destruct (alter_at_below (set_innerText lbl) button _ overlay Hb) as [E2 L2].
  rewrite E2. eexists; split; [reflexivity |]. rewrite L2. exact L1.
Qed.

Lemma Inv_toggled n t0 ok button list w :
  below n button -> below n list -> Inv n t0 ok w -> Inv n t0 ok (toggled button list w).
Proof.
  intros Hb Hl [H1 H2 H3 H4 H5].
  constructor; try (destruct w; cbn in *; assumption).
  - apply toggled_body; assumption.
Qed.

(** A click runs toggles only. *)

Lemma Inv_dispatch_toggles n t0 ok (cbs : list Callback) w :
  Forall (toggles_below n) cbs ->
  Inv n t0 ok w -> Inv n t0 ok (Page.dispatch cbs w).
Proof.
  unfold Page.dispatch. intros Hall. revert w.
  induction Hall as [| cb cbs (b & l & -> & Hb & Hl) _ IH]; intros w Hinv; simpl.
  - exact Hinv.
  - apply IH. rewrite toggle_eq. simpl. apply Inv_toggled; assumption.
Qed.

Lemma listeners_on_toggles n target w :
  Forall (fun l => toggles_below n (snd l)) (click_listeners w) ->
  Forall (toggles_below n) (Page.listeners_on target w).
Proof.
  unfold Page.listeners_on. intros H.
  induction H as [| [r cb] ls Hx _ IH]; simpl; [constructor |].
  destruct (Page.ref_eqb r target); simpl; [constructor |]; auto.
Qed.

Lemma dispatch_one (cb : Callback) (w : World) :
  Page.dispatch [cb] w = world_of (Page.call cb w).
Proof. reflexivity. Qed.

Lemma rendered_sync n t0 w :
  Inv n t0 true w -> Inv n t0 true (rendered t0 (with_frame_requests [] w)).
Proof.
  intros [H1 H2 H3 H4 H5]. constructor; cbn; auto.
  destruct H5 as (Hw & Hh & Hv). unfold viewport_of in *. cbn.
  destruct (gl w); cbn in *; [auto | discriminate].
Qed.

Lemma Inv_window n t0 ok iw ih w :
  Inv n t0 ok w -> Inv n t0 ok (resized (with_window iw ih w)) .
Proof.
  intros [H1 H2 H3 H4 H5]. constructor; cbn; auto.
  destruct ok.
  - destruct H5 as (_ & _ & Hv). unfold viewport_of in *. cbn.
    destruct (gl w); cbn in *; [auto | discriminate].
  - unfold draws_of in *. cbn. destruct (gl w); cbn in *; auto.
Qed.

Lemma Inv_handle n t0 ok e w : Inv n t0 ok w -> Inv n t0 ok (Page.handle e w).
Proof.
  intros Hinv. destruct e as [iw ih | t | target]; unfold Page.handle; cbn zeta.
  - cbn [resize_listeners with_window].
    rewrite (inv_resize _ _ _ _ Hinv). destruct ok.
    + rewrite dispatch_one. cbn [Page.call]. rewrite resize_eq. cbn [world_of].
      apply Inv_window. exact Hinv.
    + destruct Hinv as [H1 H2 H3 H4 H5]. constructor; cbn; auto.
  - cbn [frame_requests with_now].
    rewrite (inv_frame _ _ _ _ Hinv). destruct ok.
    + rewrite dispatch_one. cbn [Page.call]. rewrite render_eq. cbn [world_of].
      apply (rendered_sync n t0 (with_now t w)).
      destruct Hinv as [H1 H2 H3 H4 H5]. constructor; cbn; auto.
    + destruct Hinv as [H1 H2 H3 H4 H5]. constructor; cbn; auto.
  - apply Inv_dispatch_toggles; [| exact Hinv].
    apply listeners_on_toggles. exact (inv_click _ _ _ _ Hinv).
Qed.

Lemma Inv_run n t0 ok evs w : Inv n t0 ok w -> Inv n t0 ok (Page.run evs w).
Proof.
  unfold Page.run. revert w.
  induction evs as [| e evs IH]; intros w Hinv; simpl; [exact Hinv |].
  apply IH. apply Inv_handle. exact Hinv.
Qed.

(** ** [initMenu], case by case *)

Lemma initMenu_cases (w : World) : MenuCase w (Menu.initMenu w).
Proof.
  unfold Menu.initMenu, Menu.querySelector, Menu.insertBefore,
    Menu.addEventListener_click, bind, get, modify, ret.
  destruct (select (SelTag "nav") (body w)) as [nav |] eqn:Hnav;
    [| apply menu_absent; left; exact Hnav].
  destruct (select (SelDescendant "nav" "ul") (body w)) as [list |] eqn:Hlist;
    [| apply menu_absent; right; exact Hlist].
  destruct (Menu.child_index nav list) as [i |] eqn:Hi.
  - apply (menu_placed w nav list i Hnav Hlist Hi).
  - apply (menu_misplaced w nav list Hnav Hlist Hi).
Qed.

Lemma first_match_found {A : Type} (f : A -> option NodeRef) (l : list A) :
  forall i p, first_match f i l = Some p ->
  exists j a q, p = (i + j)%nat :: q /\ nth_error l j = Some a /\ f a = Some q.
Proof.
  induction l as [| a l IH]; intros i p H; simpl in H; [discriminate |].
  destruct (f a) as [q |] eqn:Hf.
  - inversion H; subst. exists 0%nat, a, q. rewrite Nat.add_0_r. auto.
  - destruct (IH _ _ H) as (j & b & q & -> & Hn & Hb).
    exists (S j), b, q. split; [f_equal; lia | auto].
Qed.

Lemma overlay_has_no_nav :
  Forall (fun a => select_tag "nav" a = None) overlay.
Proof. repeat constructor. Qed.

Lemma nav_below (doc : list Node) (nav : NodeRef) :
  select (SelTag "nav") (doc ++ overlay) = Some nav ->
  exists j q, nav = j :: q /\ (j < List.length doc)%nat.
Proof.
  intros H. simpl in H.
  destruct (first_match_found _ _ _ _ H) as (j & a & q & -> & Hn & Hf).
  exists j, q. split; [reflexivity |].
  destruct (Nat.lt_ge_cases j (List.length doc)) as [Hlt | Hge]; [exact Hlt |].
  rewrite nth_error_app2 in Hn by exact Hge.
  apply nth_error_In in Hn.
  pose proof overlay_has_no_nav as Hall. rewrite Forall_forall in Hall.
  rewrite (Hall _ Hn) in Hf. discriminate.
Qed.

Lemma Inv_initMenu n t0 ok w :
  click_listeners w = [] ->
  Inv n t0 ok w -> Inv n t0 ok (world_of (Menu.initMenu w)).
Proof.
  intros Hcl Hinv. destruct (initMenu_cases w) as [_ | nav list _ _ _ | nav list i Hnav _ _];
    cbn [world_of]; try exact Hinv.
  destruct Hinv as [H1 H2 H3 (doc & Hbody & Hlen) H5].
  rewrite Hbody in Hnav. destruct (nav_below doc nav Hnav) as (j & q & -> & Hj).
  constructor; cbn; auto.
  - rewrite Hcl. constructor; [| constructor].
    exists ((j :: q) ++ [i]), ((j :: q) ++ [S i]). cbn. subst n. auto.
  - rewrite Hbody. exists (alter_at (insert_child menu_button i) (j :: q) doc).
    subst n. apply (alter_at_below _ (j :: q)). exact Hj.
Qed.

(** ** The loaded page *)

Lemma loaded_eq p doc iw ih t :
  Page.loaded p doc iw ih t
  = Menu.initMenu (if init_ok p then started (fresh p doc iw ih t)
                   else abandoned (fresh p doc iw ih t)).
Proof.
  unfold Page.loaded, Page.DOMContentLoaded, bind.
  destruct (init_ok p) eqn:Hok.
  - rewrite initCRT_started by exact Hok. reflexivity.
  - rewrite initCRT_abandoned by exact Hok. reflexivity.
Qed.

Lemma Inv_loaded p doc iw ih t :
  Inv (List.length doc) t (init_ok p) (world_of (Page.loaded p doc iw ih t)).
Proof.
  rewrite loaded_eq. apply Inv_initMenu.
  - destruct (init_ok p); reflexivity.
  - destruct (init_ok p); constructor; cbn; auto.
    + exists doc; auto.
    + exists doc; auto.
    + unfold draws_of. cbn. destruct (supports_webgl p); reflexivity.
Qed.

Lemma Inv_page p doc iw ih t evs :
  Inv (List.length doc) t (init_ok p)
    (Page.run evs (world_of (Page.loaded p doc iw ih t))).
Proof. apply Inv_run, Inv_loaded. Qed.

(** ** Draws along a run *)

Lemma dispatch_toggles_rest n (cbs : list Callback) w :
  Forall (toggles_below n) cbs ->
  gl (Page.dispatch cbs w) = gl w
  /\ innerWidth (Page.dispatch cbs w) = innerWidth w
  /\ innerHeight (Page.dispatch cbs w) = innerHeight w.
Proof.
  unfold Page.dispatch. intros Hall. revert w.
  induction Hall as [| cb cbs (b & l & -> & _ & _) _ IH]; intros w; simpl.
  - auto.
  - rewrite toggle_eq. cbn [world_of].
    destruct (IH (toggled b l w)) as (-> & -> & ->). auto.
Qed.

Lemma click_rest n t0 ok target w :
  Inv n t0 ok w ->
  gl (Page.handle (Page.Click target) w) = gl w
  /\ innerWidth (Page.handle (Page.Click target) w) = innerWidth w
  /\ innerHeight (Page.handle (Page.Click target) w) = innerHeight w.
Proof.
  intros Hinv. unfold Page.handle.
  apply (dispatch_toggles_rest n), listeners_on_toggles, (inv_click _ _ _ _ Hinv).
Qed.

Lemma clicks_rest n t0 ok targets w :
  Inv n t0 ok w ->
  gl (Page.run (map Page.Click targets) w) = gl w
  /\ innerWidth (Page.run (map Page.Click targets) w) = innerWidth w
  /\ innerHeight (Page.run (map Page.Click targets) w) = innerHeight w.
Proof.
  revert w. induction targets as [| x targets IH]; intros w Hinv; [cbn; auto |].
  change (Page.run (map Page.Click (x :: targets)) w)
    with (Page.run (map Page.Click targets) (Page.handle (Page.Click x) w)).
  destruct (IH _ (Inv_handle _ _ _ (Page.Click x) _ Hinv)) as (E1 & E2 & E3).
  destruct (click_rest n t0 ok x w Hinv) as (F1 & F2 & F3).
  rewrite E1, E2, E3. auto.
Qed.

Lemma frame_draws n t0 t w :
  Inv n t0 true w ->
  draws_of (Page.handle (Page.AnimationFrame t) w)
  = draws_of w
      ++ [mkDraw ((t - t0) / 1000) (innerWidth w, innerHeight w)
            (0, 0, innerWidth w, innerHeight w)%N 0 4].
Proof.
  intros Hinv. unfold Page.handle. cbn zeta. cbn [frame_requests with_now].
  rewrite (inv_frame _ _ _ _ Hinv), dispatch_one. cbn [Page.call].
  rewrite render_eq. cbn [world_of].
  destruct (inv_sync _ _ _ _ Hinv) as (Hw & Hh & Hv).
  unfold draws_of, viewport_of, rendered in *. cbn.
  destruct (gl w) as [g |]; cbn in *; [| discriminate].
  inversion Hv as [Hvp]. rewrite Hvp, Hw, Hh.
  do 3 f_equal. lra.
Qed.

Lemma resize_draws n t0 ok iw ih w :
  Inv n t0 ok w -> draws_of (Page.handle (Page.Resize iw ih) w) = draws_of w.
Proof.
  intros Hinv. unfold Page.handle. cbn zeta. cbn [resize_listeners with_window].
  rewrite (inv_resize _ _ _ _ Hinv). destruct ok.
  - rewrite dispatch_one. cbn [Page.call]. rewrite resize_eq. cbn [world_of].
    unfold draws_of. cbn. destruct (gl w); reflexivity.
  - reflexivity.
Qed.

Lemma run_app (evs1 evs2 : list Page.Event) (w : World) :
  Page.run (evs1 ++ evs2) w = Page.run evs2 (Page.run evs1 w).
Proof. unfold Page.run. apply fold_left_app. Qed.

Lemma draw_times n t0 evs w :
  Inv n t0 true w ->
  map draw_time (draws_of (Page.run evs w))
  = map draw_time (draws_of w) ++ map (fun t => (t - t0) / 1000)%R (frame_times evs).
Proof.
  revert w. induction evs as [| e evs IH]; intros w Hinv.
  - simpl. rewrite app_nil_r. reflexivity.
  - change (Page.run (e :: evs) w) with (Page.run evs (Page.handle e w)).
    rewrite (IH _ (Inv_handle _ _ _ e _ Hinv)).
    destruct e as [iw ih | t | target]; cbn [frame_times].
    + rewrite (resize_draws _ _ _ _ _ _ Hinv). reflexivity.
    + rewrite (frame_draws _ _ _ _ Hinv), map_app, <- app_assoc. reflexivity.
    + unfold draws_of. destruct (click_rest _ _ _ target _ Hinv) as (-> & _).
      reflexivity.
Qed.

Lemma resize_window n t0 iw ih w :
  Inv n t0 true w ->
  innerWidth (Page.handle (Page.Resize iw ih) w) = iw
  /\ innerHeight (Page.handle (Page.Resize iw ih) w) = ih.
Proof.
  intros Hinv. unfold Page.handle. cbn zeta. cbn [resize_listeners with_window].
  rewrite (inv_resize _ _ _ _ Hinv), dispatch_one. cbn [Page.call].
  rewrite resize_eq. cbn. auto.
Qed.

Lemma initMenu_absent (w : World) :
  select (SelTag "nav") (body w) = None
  \/ select (SelDescendant "nav" "ul") (body w) = None ->
  Menu.initMenu w = Normal tt w.
Proof.
  intros H. destruct (initMenu_cases w) as [_ | nav list Hn Hl _ | nav list i Hn Hl _];
    try reflexivity; destruct H as [H | H]; congruence.
Qed.

Lemma initMenu_misplaced (w : World) (nav list : NodeRef) :
  select (SelTag "nav") (body w) = Some nav ->
  select (SelDescendant "nav" "ul") (body w) = Some list ->
  Menu.child_index nav list = None ->
  Menu.initMenu w = Throws NotFoundError w.
Proof.
  intros Hn Hl Hc.
  destruct (initMenu_cases w) as [[H | H] | nav' list' _ _ _ | nav' list' i Hn' Hl' Hc'];
    try reflexivity; congruence.
Qed.

Lemma initMenu_placed (w : World) (nav list : NodeRef) (i : nat) :
  select (SelTag "nav") (body w) = Some nav ->
  select (SelDescendant "nav" "ul") (body w) = Some list ->
  Menu.child_index nav list = Some i ->
  Menu.initMenu w = Normal tt (menu_installed nav i w).
Proof.
  intros Hn Hl Hc.
  destruct (initMenu_cases w) as [[H | H] | nav' list' Hn' Hl' Hc' | nav' list' j Hn' Hl' Hc'];
    congruence.
Qed.

(** C10, on two documents the claim covers: [querySelector('nav')]
    answers the first [nav] and [querySelector('nav ul')] the first
    [ul] below any [nav]; when that [ul] is not a child of that [nav],
    [insertBefore] raises [NotFoundError] and the exception leaves
    [initMenu] and the [DOMContentLoaded] handler.  In [two_navs] the
    first [nav] holds no list at all; in [wrapped_list] the list sits
    one level deeper. *)

Theorem initMenu_throws_on_misplaced_list :
  (forall w nav list,
      select (SelTag "nav") (body w) = Some nav ->
      select (SelDescendant "nav" "ul") (body w) = Some list ->
      Menu.child_index nav list = None ->
      Menu.initMenu w = Throws NotFoundError w)
  /\ Menu.initMenu (fresh capable two_navs 800 600 0)
     = Throws NotFoundError (fresh capable two_navs 800 600 0)
  /\ node_at two_navs [0%nat] = Some (element "nav" [])
  /\ Menu.initMenu (fresh capable wrapped_list 800 600 0)
     = Throws NotFoundError (fresh capable wrapped_list 800 600 0)
  /\ returns (Page.loaded capable two_navs 800 600 0) = false.
Proof.
  split; [exact initMenu_misplaced |].
  split; [apply (initMenu_misplaced _ [0%nat] [1%nat; 0%nat]); reflexivity |].
  split; [reflexivity |].
  split; [apply (initMenu_misplaced _ [0%nat] [0%nat; 0%nat; 0%nat]); reflexivity |].
  rewrite loaded_eq. cbn [init_ok capable supports_webgl creates_shader compiles
    creates_program links andb].
  rewrite (initMenu_misplaced _ [0%nat] [1%nat; 0%nat]); reflexivity.
Qed.

(** ** What a click does once the button is in place *)

Lemma nth_error_alter_nth {A : Type} (g : A -> A) (i j : nat) (l : list A) :
  nth_error (alter_nth g i l) j
  = if Nat.eqb i j then option_map g (nth_error l j) else nth_error l j.
Proof.
  revert i j. induction l as [| a l IH]; intros i j.
  - destruct i, j; reflexivity || (simpl; destruct (Nat.eqb i j); reflexivity).
  - destruct i as [| i], j as [| j]; simpl; try reflexivity. apply IH.
Qed.

Lemma nth_error_insert_nth {A : Type} (x : A) (i : nat) (l : list A) :
  (i <= List.length l)%nat ->
  nth_error (insert_nth x i l) i = Some x
  /\ nth_error (insert_nth x i l) (S i) = nth_error l i.
Proof.
  revert l. induction i as [| i IH]; intros l Hi.
  - split; reflexivity.
  - destruct l as [| a l]; simpl in Hi; [lia |]. simpl. apply IH. lia.
Qed.

Lemma child_index_spec (parent ref : NodeRef) (i : nat) :
  Menu.child_index parent ref = Some i <-> ref = parent ++ [i].
Proof.
  revert ref. induction parent as [| a parent IH]; intros ref; simpl.
  - destruct ref as [| b [| c ref]]; split; intros H; try discriminate;
      inversion H; reflexivity.
  - destruct ref as [| b ref]; [split; intros H; discriminate |].
    destruct (Nat.eqb_spec a b) as [-> | Hne].
    + rewrite IH. split; intros H; [subst; reflexivity | inversion H; reflexivity].
    + split; intros H; [discriminate | inversion H; subst; contradiction].
Qed.

Lemma node_at_child (forest : list Node) (p : NodeRef) (i : nat) (n : Node) :
  node_at forest p = Some n ->
  node_at forest (p ++ [i]) = nth_error (childNodes n) i.
Proof.
  revert forest. induction p as [| a p IH]; intros forest H; [discriminate |].
  simpl in *. destruct (nth_error forest a) as [m |]; [| discriminate].
  destruct p as [| b p]; simpl.
  - inversion H; subst. destruct (nth_error (childNodes n) i); reflexivity.
  - apply (IH (childNodes m)). exact H.
Qed.

Lemma node_at_alter_same (g : Node -> Node) (p : NodeRef) (forest : list Node) :
  node_at (alter_at g p forest) p = option_map g (node_at forest p).
Proof.
  revert forest. induction p as [| a p IH]; intros forest; [reflexivity |].
  cbn [node_at alter_at]. rewrite nth_error_alter_nth, Nat.eqb_refl.
  destruct (nth_error forest a) as [n |]; [| reflexivity]. cbn [option_map].
  destruct p as [| b p]; [reflexivity |].
  cbn [childNodes set_childNodes]. apply IH.
Qed.

Lemma node_at_alter_sibling (g : Node -> Node) (p : NodeRef) (i j : nat)
  (forest : list Node) :
  i <> j ->
  node_at (alter_at g (p ++ [i]) forest) (p ++ [j]) = node_at forest (p ++ [j]).
Proof.
  intros Hne. revert forest. induction p as [| a p IH]; intros forest.
  - cbn [app node_at alter_at]. rewrite nth_error_alter_nth.
    destruct (Nat.eqb_spec i j); [contradiction | reflexivity].
  - cbn [app node_at alter_at]. rewrite nth_error_alter_nth, Nat.eqb_refl.
    destruct (nth_error forest a) as [n |]; [| reflexivity]. cbn [option_map].
    destruct (p ++ [i]) as [| x q] eqn:Ei; [destruct p; discriminate |].
    destruct (p ++ [j]) as [| y r] eqn:Ej; [destruct p; discriminate |].
    cbn [childNodes set_childNodes]. apply IH.
Qed.

Lemma removed_token_is_gone (token : string) (l : list string) :
  Menu.has_token token (filter (fun c => negb (String.eqb token c)) l) = false.
Proof.
  unfold Menu.has_token. induction l as [| c l IH]; [reflexivity |]. simpl.
  destruct (String.eqb token c) eqn:Ec; simpl; [exact IH |].
  rewrite Ec. exact IH.
Qed.

Lemma toggle_class_flips (token : string) (n : Node) :
  Menu.has_token token (classList (toggle_class token n))
  = negb (Menu.has_token token (classList n)).
Proof.
  unfold toggle_class.
  destruct (Menu.has_token token (classList n)) eqn:E; cbn [classList set_classList negb].
  - apply removed_token_is_gone.
  - unfold Menu.has_token in *. rewrite existsb_app, E. simpl.
    rewrite String.eqb_refl. reflexivity.
Qed.

(** The button and the list it was put in front of, right after
    [initMenu], and after one click on the button. *)

Lemma installed_nodes (w : World) (nav : NodeRef) (i : nat) (n ul : Node) :
  node_at (body w) nav = Some n ->
  nth_error (childNodes n) i = Some ul ->
  node_at (body (menu_installed nav i w)) (nav ++ [i]) = Some menu_button
  /\ node_at (body (menu_installed nav i w)) (nav ++ [S i]) = Some ul.
Proof.
  intros Hn Hul. unfold menu_installed. cbn [body with_body with_click_listeners].
  pose proof (node_at_alter_same (insert_child menu_button i) nav (body w)) as H.
  rewrite Hn in H. cbn [option_map] in H.
  rewrite !(node_at_child _ _ _ _ H). cbn [insert_child childNodes set_childNodes].
  assert (Hi : (i <= List.length (childNodes n))%nat).
  { apply Nat.lt_le_incl, nth_error_Some. rewrite Hul. discriminate. }
  destruct (nth_error_insert_nth menu_button i (childNodes n) Hi) as (-> & ->).
  auto.
Qed.

Lemma click_toggles (w : World) (p : NodeRef) (i : nat) (button ul : Node) :
  node_at (body w) (p ++ [i]) = Some button ->
  node_at (body w) (p ++ [S i]) = Some ul ->
  let w' := toggled (p ++ [i]) (p ++ [S i]) w in
  let open := negb (Menu.has_token "open" (classList ul)) in
  node_at (body w') (p ++ [S i]) = Some (toggle_class "open" ul)
  /\ Menu.has_token "open" (classList (toggle_class "open" ul)) = open
  /\ node_at (body w') (p ++ [i])
     = Some (set_innerText (if open then "> CERRAR COMANDOS" else "> ABRIR COMANDOS")
               button).
Proof.
  intros Hb Hul w' open. unfold w', toggled. cbn [body with_body].
  set (b := alter_at (toggle_class "open") (p ++ [S i]) (body w)).
  assert (Hul' : node_at b (p ++ [S i]) = Some (toggle_class "open" ul)).
  { unfold b. rewrite node_at_alter_same, Hul. reflexivity. }
  assert (Hb' : node_at b (p ++ [i]) = Some button).
  { unfold b. rewrite node_at_alter_sibling by lia. exact Hb. }
  assert (Hopen : is_open b (p ++ [S i]) = open).
  { unfold is_open. rewrite Hul'. apply toggle_class_flips. }
  rewrite Hopen. split; [| split].
  - rewrite node_at_alter_sibling by lia. exact Hul'.
  - apply toggle_class_flips.
  - rewrite node_at_alter_same, Hb'. reflexivity.
Qed.

Lemma init_fails_not_ok (p : Platform) : init_fails p -> init_ok p = false.
Proof.
  unfold init_fails, context_unavailable, compile_fails, link_fails, init_ok.
  intros [H | [[H | H] | [[H | H] | [H | H]]]]; rewrite H;
    repeat (rewrite ?andb_false_r, ?andb_false_l); reflexivity.
Qed.

(** ** Selectors find what they name *)

Lemma ref_eqb_refl (p : NodeRef) : Page.ref_eqb p p = true.
Proof.
  induction p as [| a p IH]; [reflexivity |]. simpl.
  rewrite Nat.eqb_refl. exact IH.
Qed.

(** Induction on a tree, with the property available at every child. *)
Lemma Node_induction (P : Node -> Prop) :
  (forall tag id classes text css children,
      Forall P children -> P (mkNode tag id classes text css children)) ->
  forall n, P n.
Proof.
  intros step.
  fix IH 1. intros [tag id classes text css children].
  apply step. induction children as [| c children IHc]; constructor.
  - apply IH.
  - exact IHc.
Qed.

Lemma first_match_node (f : Node -> option NodeRef) (P : Node -> Prop)
  (l : list Node) :
  Forall (fun a => forall q, f a = Some q -> exists m, descend a q = Some m /\ P m) l ->
  forall p, first_match f 0 l = Some p ->
  exists m, node_at l p = Some m /\ P m.
Proof.
  intros Hall p Hp.
  destruct (first_match_found f l 0 p Hp) as (j & a & q & -> & Hn & Hf).
  rewrite Forall_forall in Hall.
  destruct (Hall a (nth_error_In _ _ Hn) q Hf) as (m & Hm & HP).
  exists m. split; [| exact HP]. simpl. rewrite Hn.
  destruct q; [inversion Hm; reflexivity | exact Hm].
Qed.

Lemma select_tag_node (tag : string) (n : Node) :
  forall q, select_tag tag n = Some q ->
  exists m, descend n q = Some m /\ tagName m = tag.
Proof.
  induction n as [t id classes text css children IH] using Node_induction.
  intros q H. simpl in H. destruct (String.eqb_spec t tag) as [-> | Hne].
  - inversion H; subst. exists (mkNode tag id classes text css children). auto.
  - destruct (first_match_node _ _ _ IH q H) as (m & Hm & Ht).
    exists m. split; [| exact Ht]. unfold descend. simpl.
    destruct q; [discriminate | exact Hm].
Qed.

Lemma select_descendant_node (anc tag : string) (n : Node) :
  forall inside q, select_descendant anc tag inside n = Some q ->
  exists m, descend n q = Some m /\ tagName m = tag.
Proof.
  induction n as [t id classes text css children IH] using Node_induction.
  intros inside q H. simpl in H.
  destruct (inside && String.eqb t tag) eqn:E.
  - inversion H; subst. apply andb_prop in E. destruct E as [_ E].
    apply String.eqb_eq in E. subst.
    exists (mkNode tag id classes text css children). auto.
  - assert (IH' : Forall (fun a => forall q,
                select_descendant anc tag (inside || String.eqb t anc) a = Some q ->
                exists m, descend a q = Some m /\ tagName m = tag) children).
    { rewrite Forall_forall in *. intros a Ha q' Hq. exact (IH a Ha _ q' Hq). }
    destruct (first_match_node _ _ _ IH' q H) as (m & Hm & Ht).
    exists m. split; [| exact Ht]. unfold descend. simpl.
    destruct q; [discriminate | exact Hm].
Qed.

Lemma select_node (s : Selector) (forest : list Node) (p : NodeRef) :
  select s forest = Some p ->
  exists m, node_at forest p = Some m
            /\ tagName m = match s with SelTag tag | SelDescendant _ tag => tag end.
Proof.
  destruct s as [tag | anc tag]; simpl; intros H.
  - apply (first_match_node (select_tag tag) (fun m => tagName m = tag) forest);
      [| exact H].
    rewrite Forall_forall. intros a _. apply select_tag_node.
  - apply (first_match_node (select_descendant anc tag false)
             (fun m => tagName m = tag) forest); [| exact H].
    rewrite Forall_forall. intros a _. apply select_descendant_node.
Qed.

(** The menu where the list is a child of the first [nav]: the button
    goes in just before the list, and a click on it runs the toggle. *)
Lemma menu_in_place (w : World) (nav : NodeRef) (i : nat) :
  click_listeners w = [] ->
  select (SelTag "nav") (body w) = Some nav ->
  select (SelDescendant "nav" "ul") (body w) = Some (nav ++ [i]) ->
  exists ul,
    nth_error (click_listeners (menu_installed nav i w)) 0
    = Some (nav ++ [i], fn_toggle (nav ++ [i]) (nav ++ [S i]))
    /\ Menu.initMenu w = Normal tt (menu_installed nav i w)
    /\ node_at (body w) (nav ++ [i]) = Some ul /\ tagName ul = "ul"
    /\ node_at (body (menu_installed nav i w)) (nav ++ [i]) = Some menu_button
    /\ node_at (body (menu_installed nav i w)) (nav ++ [S i]) = Some ul
    /\ Page.handle (Page.Click (nav ++ [i])) (menu_installed nav i w)
       = toggled (nav ++ [i]) (nav ++ [S i]) (menu_installed nav i w).
Proof.
  intros Hcl Hnav Hlist.
  destruct (select_node _ _ _ Hnav) as (n & Hn & _).
  destruct (select_node _ _ _ Hlist) as (ul & Hul & Htag).
  exists ul. rewrite (node_at_child _ _ i _ Hn) in Hul.
  split; [unfold menu_installed; cbn; rewrite Hcl; reflexivity |].
  split; [apply (initMenu_placed w nav (nav ++ [i]) i Hnav Hlist);
          apply child_index_spec; reflexivity |].
  split; [rewrite (node_at_child _ _ i _ Hn); exact Hul |].
  split; [exact Htag |].
  destruct (installed_nodes w nav i n ul Hn Hul) as (Hb & Hl).
  split; [exact Hb |]. split; [exact Hl |].
  assert (Hc : click_listeners (menu_installed nav i w)
               = [(nav ++ [i], fn_toggle (nav ++ [i]) (nav ++ [S i]))]).
  { unfold menu_installed. cbn. rewrite Hcl. reflexivity. }
  unfold Page.handle, Page.listeners_on. rewrite Hc. cbn [filter fst].
  rewrite ref_eqb_refl. cbn [map snd]. rewrite dispatch_one. cbn [Page.call].
  rewrite toggle_eq. reflexivity.
Qed.

Example plain_menu_loads :
  returns (Page.loaded capable plain_menu 800 600 0) = true
  /\ map tagName (body (world_of (Page.loaded capable plain_menu 800 600 0)))
     = ["header"; "nav"; "div"; "div"; "div"; "div"; "div"; "div"; "div"; "div";
        "canvas"]
  /\ node_at (body (world_of (Page.loaded capable plain_menu 800 600 0))) [1; 0]%nat
     = Some menu_button.
Proof. repeat split. Qed.

Example plain_menu_opens_and_closes :
  let w0 := world_of (Page.loaded capable plain_menu 800 600 0) in
  let w1 := Page.run [Page.Click [1; 0]%nat] w0 in
  let w2 := Page.run [Page.Click [1; 0]%nat] w1 in
  option_map classList (node_at (body w1) [1; 1]%nat) = Some ["open"]
  /\ option_map innerText (node_at (body w1) [1; 0]%nat) = Some "> CERRAR COMANDOS"
  /\ option_map classList (node_at (body w2) [1; 1]%nat) = Some []
  /\ option_map innerText (node_at (body w2) [1; 0]%nat) = Some "> ABRIR COMANDOS".
Proof. repeat split. Qed.

(** ** What a draw paints *)

(** Every pixel of every draw adds no light and takes away a share of
    the page's light between none and all. *)
Lemma shade_darkens_only (d : Draw) (v_uv : Shader.vec2) :
  Shader.rgb (Page.shade d v_uv) = Shader.totalAdd
  /\ (0 <= Shader.alpha (Page.shade d v_uv) <= 1)%R.
Proof.
  split; [reflexivity |]. unfold Page.shade, Shader.main, Shader.totalDark. simpl.
  match goal with |- (_ <= Shader.clamp ?x _ _ <= _)%R =>
    pose proof (ShaderFacts.clamp_bounds x 0.0 1.0) end.
  lra.
Qed.

(** ** The claims about the page *)

(** C5, amended: when the context cannot be acquired, or a shader
    cannot be created or compiled, or the program cannot be created or
    linked, [initCRT] returns normally; it has appended the eight bloom
    layers and the canvas to the body and nothing else, registered no
    resize listener, requested no animation frame and drawn nothing,
    and whatever events follow, no frame is ever requested or drawn. *)

Theorem failed_init_is_silent (p : Platform) (doc : list Node) (iw ih : N) (t : R)
  (events : list Page.Event) :
  init_fails p ->
  exists w,
    Crt.initCRT (fresh p doc iw ih t) = Normal tt w
    /\ body w = doc ++ map Crt.layer_of Crt.bloomLayers ++ [Crt.canvas_element]
    /\ resize_listeners w = [] /\ frame_requests w = [] /\ draws_of w = []
    /\ frame_requests (Page.run events (world_of (Page.loaded p doc iw ih t))) = []
    /\ draws_of (Page.run events (world_of (Page.loaded p doc iw ih t))) = [].
Proof.
  intros Hf. apply init_fails_not_ok in Hf.
  exists (abandoned (fresh p doc iw ih t)).
  split; [apply initCRT_abandoned; exact Hf |].
  split; [reflexivity |]. split; [reflexivity |]. split; [reflexivity |].
  split; [unfold draws_of; cbn; destruct (supports_webgl p); reflexivity |].
  pose proof (Inv_page p doc iw ih t events) as Hinv. rewrite Hf in Hinv.
  split; [exact (inv_frame _ _ _ _ Hinv) | exact (inv_sync _ _ _ _ Hinv)].
Qed.

Lemma failed_init_is_silent_witness :
  exists w,
    Crt.initCRT (fresh no_webgl [] 800 600 0) = Normal tt w
    /\ body w = [] ++ map Crt.layer_of Crt.bloomLayers ++ [Crt.canvas_element]
    /\ resize_listeners w = [] /\ frame_requests w = [] /\ draws_of w = []
    /\ frame_requests
         (Page.run [Page.Resize 1920 1080; Page.AnimationFrame 16]
            (world_of (Page.loaded no_webgl [] 800 600 0))) = []
    /\ draws_of
         (Page.run [Page.Resize 1920 1080; Page.AnimationFrame 16]
            (world_of (Page.loaded no_webgl [] 800 600 0))) = [].
Proof.
  apply (failed_init_is_silent no_webgl [] 800 600 0
           [Page.Resize 1920 1080; Page.AnimationFrame 16]).
  left. reflexivity.
Defined.

(** C5 as stated fails where WebGL is missing: the body of an empty
    page ends up with nine elements, the ninth being the canvas. *)
Lemma canvas_left_behind :
  body (world_of (Crt.initCRT (fresh no_webgl [] 800 600 0)))
  = map Crt.layer_of Crt.bloomLayers ++ [Crt.canvas_element]
  /\ List.length (body (world_of (Crt.initCRT (fresh no_webgl [] 800 600 0)))) = 9%nat.
Proof.
  rewrite initCRT_abandoned by reflexivity. split; reflexivity.
Qed.

(** C6: [bloomLayers] holds exactly the eight descriptors below, in
    this order, blur radii strictly increasing and opacities strictly
    decreasing; on every platform, and after any sequence of events,
    the body ends with eight [div] elements followed by the canvas, the
    [i]-th of them styled with the blur radius and the brightness of
    the [i]-th descriptor as its backdrop filter (under both property
    names), blend mode [screen], and the descriptor's opacity. *)
Theorem bloom_layers_are_fixed (p : Platform) (doc : list Node) (iw ih : N) (t : R)
  (events : list Page.Event) :
  Crt.bloomLayers
  = [ Crt.mkBloomLayer 0.5 1.1 0.45;  Crt.mkBloomLayer 1.5 1.15 0.3;
      Crt.mkBloomLayer 3 1.2 0.2;     Crt.mkBloomLayer 6 1.25 0.14;
      Crt.mkBloomLayer 12 1.2 0.1;    Crt.mkBloomLayer 24 1.15 0.07;
      Crt.mkBloomLayer 48 1.1 0.04;   Crt.mkBloomLayer 80 1.05 0.02 ]%Q
  /\ List.length Crt.bloomLayers = 8%nat
  /\ map Crt.blur Crt.bloomLayers = [0.5; 1.5; 3; 6; 12; 24; 48; 80]%Q
  /\ map Crt.brightness Crt.bloomLayers
     = [1.1; 1.15; 1.2; 1.25; 1.2; 1.15; 1.1; 1.05]%Q
  /\ map Crt.opacity Crt.bloomLayers
     = [0.45; 0.3; 0.2; 0.14; 0.1; 0.07; 0.04; 0.02]%Q
  /\ StronglySorted Qlt (map Crt.blur Crt.bloomLayers)
  /\ StronglySorted (fun a b => Qlt b a) (map Crt.opacity Crt.bloomLayers)
  /\ exists doc' layers,
       body (Page.run events (world_of (Page.loaded p doc iw ih t)))
       = doc' ++ layers ++ [Crt.canvas_element]
       /\ List.length doc' = List.length doc
       /\ layers = map Crt.layer_of Crt.bloomLayers
       /\ map (fun n => (tagName n,
                         style_value "backdrop-filter" n,
                         style_value "-webkit-backdrop-filter" n,
                         style_value "mix-blend-mode" n,
                         style_value "opacity" n)) layers
          = [ ("div", Some (CssBackdrop 0.5 1.1), Some (CssBackdrop 0.5 1.1),
               Some (CssText "screen"), Some (CssNumber 0.45));
              ("div", Some (CssBackdrop 1.5 1.15), Some (CssBackdrop 1.5 1.15),
               Some (CssText "screen"), Some (CssNumber 0.3));
              ("div", Some (CssBackdrop 3 1.2), Some (CssBackdrop 3 1.2),
               Some (CssText "screen"), Some (CssNumber 0.2));
              ("div", Some (CssBackdrop 6 1.25), Some (CssBackdrop 6 1.25),
               Some (CssText "screen"), Some (CssNumber 0.14));
              ("div", Some (CssBackdrop 12 1.2), Some (CssBackdrop 12 1.2),
               Some (CssText "screen"), Some (CssNumber 0.1));
              ("div", Some (CssBackdrop 24 1.15), Some (CssBackdrop 24 1.15),
               Some (CssText "screen"), Some (CssNumber 0.07));
              ("div", Some (CssBackdrop 48 1.1), Some (CssBackdrop 48 1.1),
               Some (CssText "screen"), Some (CssNumber 0.04));
              ("div", Some (CssBackdrop 80 1.05), Some (CssBackdrop 80 1.05),
               Some (CssText "screen"), Some (CssNumber 0.02)) ]
       /\ tagName Crt.canvas_element = "canvas"
       /\ style_value "z-index" Crt.canvas_element = Some (CssText "9999").
Proof.
  do 5 (split; [reflexivity |]).
  split; [repeat constructor |]. split; [repeat constructor |].
  destruct (inv_body _ _ _ _ (Inv_page p doc iw ih t events)) as (doc' & Hb & Hl).
  exists doc', (map Crt.layer_of Crt.bloomLayers).
  split; [exact Hb |]. split; [exact Hl |]. repeat split.
Qed.

(** C7: once [initCRT] has gone through, a resize event, at any
    point of the page's life, sets the canvas backing size and the GL
    viewport to the window's new size within the event itself; clicks
    in between change neither, and the next animation frame draws with
    that resolution and that viewport. *)

Theorem resize_is_immediate (p : Platform) (doc : list Node) (iw ih : N) (t : R)
  (before : list Page.Event) (iw' ih' : N) (clicks : list NodeRef) (t' : R) :
  init_ok p = true ->
  let w := Page.run (before ++ Page.Resize iw' ih' :: map Page.Click clicks)
             (world_of (Page.loaded p doc iw ih t)) in
  canvas_width w = iw' /\ canvas_height w = ih'
  /\ viewport_of w = Some (0, 0, iw', ih')%N
  /\ draws_of (Page.handle (Page.AnimationFrame t') w)
     = draws_of w ++ [mkDraw ((t' - t) / 1000) (iw', ih') (0, 0, iw', ih')%N 0 4].
Proof.
  intros Hok w.
  pose proof (Inv_page p doc iw ih t before) as H0. rewrite Hok in H0.
  set (w0 := Page.run before _) in H0.
  pose proof (Inv_handle _ _ _ (Page.Resize iw' ih') _ H0) as H1.
  destruct (resize_window _ _ iw' ih' _ H0) as (Ew & Eh).
  set (w1 := Page.handle _ w0) in *.
  assert (Hw : w = Page.run (map Page.Click clicks) w1).
  { unfold w. rewrite run_app. reflexivity. }
  pose proof (Inv_run _ _ _ (map Page.Click clicks) _ H1) as H2.
  destruct (clicks_rest _ _ _ clicks _ H1) as (_ & Fw & Fh).
  rewrite <- Hw in H2, Fw, Fh.
  destruct (inv_sync _ _ _ _ H2) as (Cw & Ch & Vp).
  rewrite (frame_draws _ _ t' _ H2).
  rewrite Cw, Ch, Vp, Fw, Fh, Ew, Eh. auto.
Qed.

Lemma resize_is_immediate_witness :
  let w := Page.run ([Page.AnimationFrame 16] ++ Page.Resize 1920 1080 :: map Page.Click [[0%nat]])
             (world_of (Page.loaded capable [] 800 600 0)) in
  canvas_width w = 1920%N /\ canvas_height w = 1080%N
  /\ viewport_of w = Some (0, 0, 1920, 1080)%N
  /\ draws_of (Page.handle (Page.AnimationFrame 33) w)
     = draws_of w ++ [mkDraw ((33 - 0) / 1000) (1920, 1080)%N (0, 0, 1920, 1080)%N 0 4].
Proof.
  exact (resize_is_immediate capable [] 800 600 0 [Page.AnimationFrame 16]
           1920 1080 [[0%nat]] 33 eq_refl).
Defined.

(** C8: once [initCRT] has gone through, the pending frame
    callback is always [render] with the start time read at load, and
    the elapsed times passed to the draws of a run are exactly
    [(now - start) / 1000] for the clock readings of its animation
    frames, in order. *)

Theorem elapsed_is_measured_from_start (p : Platform) (doc : list Node) (iw ih : N)
  (t : R) (events : list Page.Event) :
  init_ok p = true ->
  frame_requests (Page.run events (world_of (Page.loaded p doc iw ih t)))
  = [fn_render t]
  /\ map draw_time (draws_of (Page.run events (world_of (Page.loaded p doc iw ih t))))
     = map (fun now => (now - t) / 1000)%R (frame_times events).
Proof.
  intros Hok.
  pose proof (Inv_page p doc iw ih t events) as Hrun.
  pose proof (Inv_loaded p doc iw ih t) as Hload.
  rewrite Hok in Hrun, Hload.
  split; [exact (inv_frame _ _ _ _ Hrun) |].
  rewrite (draw_times _ _ events _ Hload).
  replace (draws_of (world_of (Page.loaded p doc iw ih t))) with (@nil Draw);
    [reflexivity |].
  rewrite loaded_eq, Hok.
  destruct (initMenu_cases (started (fresh p doc iw ih t))); reflexivity.
Qed.

Lemma elapsed_is_measured_from_start_witness :
  frame_requests
    (Page.run [Page.AnimationFrame 1016; Page.Resize 1920 1080; Page.AnimationFrame 1049]
       (world_of (Page.loaded capable [] 800 600 1000)))
  = [fn_render 1000]
  /\ map draw_time
       (draws_of
          (Page.run [Page.AnimationFrame 1016; Page.Resize 1920 1080; Page.AnimationFrame 1049]
             (world_of (Page.loaded capable [] 800 600 1000))))
     = map (fun now => (now - 1000) / 1000)%R
         (frame_times [Page.AnimationFrame 1016; Page.Resize 1920 1080; Page.AnimationFrame 1049]).
Proof.
  exact (elapsed_is_measured_from_start capable [] 800 600 1000
           [Page.AnimationFrame 1016; Page.Resize 1920 1080; Page.AnimationFrame 1049]
           eq_refl).
Defined.

End PageFacts.

(* ================================================================== *)
(** * Further properties of the shader *)
(* ================================================================== *)

Module ShaderLaws.
Import Shader ShaderSpec ShaderFacts ShaderMore.
Local Open Scope R_scope.

Lemma vec2_eq (a b : vec2) : vx a = vx b -> vy a = vy b -> a = b.
Proof. destruct a, b; simpl; intros -> ->; reflexivity. Qed.

(** X1: the fragment shader's centred coordinate [vigCoord] undoes the
    vertex shader's [v_uv = a_position * 0.5 + 0.5]; [v_uv] lies in the
    unit square exactly when [a_position] lies in clip space; the four
    vertices of the buffer land on the four corners of the unit square. *)
Theorem quad_fills_viewport (a_position : vec2) :
  vigCoord (v_uv_of a_position) = a_position
  /\ (in_viewport (v_uv_of a_position)
      <-> -1 <= vx a_position <= 1 /\ -1 <= vy a_position <= 1)
  /\ Forall2 (fun a corner => v_uv_of a = corner) (positions Crt.vertices)
       [mkvec2 0 0; mkvec2 1 0; mkvec2 0 1; mkvec2 1 1].
Proof.
  split; [| split].
  - apply vec2_eq; unfold vigCoord, v_uv_of, vsub_s, vadd_s, vscale; simpl; lra.
  - unfold in_viewport, v_uv_of, vadd_s, vscale. simpl. split; intros [H1 H2]; lra.
  - simpl. repeat (apply Forall2_cons;
      [apply vec2_eq; unfold v_uv_of, vadd_s, vscale; simpl; lra |]).
    apply Forall2_nil.
Qed.

Lemma flicker_range (t : R) : -0.04 <= flickerDark t < 0.04.
Proof.
  unfold flickerDark. pose proof (hash_bounds (mkvec2 (floor (t * 30.0)) 0.0)). lra.
Qed.

(** X2: at every coordinate of the viewport, at every time and
    resolution, the darkness stays below 0.48, and the upper clamp is
    never the one that acts: the darkness is the sum of the three terms
    cut off at 0 from below. *)
Theorem on_screen_darkness (uv : vec2) (u_time : R) (u_resolution : vec2) :
  in_viewport uv ->
  0 <= alpha (main uv u_time u_resolution) < 0.48
  /\ alpha (main uv u_time u_resolution)
     = Rmax 0 (scanDark uv u_resolution + vigDark uv + flickerDark u_time).
Proof.
  intros Hv. simpl. unfold totalDark.
  pose proof (scanDark_range uv u_resolution) as Hs.
  pose proof (vigDark_viewport uv Hv) as Hg.
  pose proof (flicker_range u_time) as Hf.
  set (x := scanDark uv u_resolution + vigDark uv + flickerDark u_time) in *.
  assert (Hx : x < 0.48) by (unfold x; lra).
  unfold clamp, Rmin, Rmax.
  destruct (Rle_dec x 0.0); destruct (Rle_dec 0 x); destruct (Rle_dec _ 1.0); split; lra.
Qed.

Lemma on_screen_darkness_witness :
  in_viewport (mkvec2 0.5 0.5)
  /\ 0 <= alpha (main (mkvec2 0.5 0.5) 0 (mkvec2 1000 1000)) < 0.48.
Proof.
  assert (Hv : in_viewport (mkvec2 0.5 0.5)) by (split; simpl; lra).
  split; [exact Hv |].
  exact (proj1 (on_screen_darkness (mkvec2 0.5 0.5) 0 (mkvec2 1000 1000) Hv)).
Defined.

(** X3: the vignette is the same at a coordinate and at its mirror
    images across the vertical and the horizontal centre line, and
    mirroring keeps a coordinate inside the viewport. *)
Theorem vignette_is_symmetric (uv : vec2) :
  vigDark (mirror_x uv) = vigDark uv /\ vigDark (mirror_y uv) = vigDark uv
  /\ (in_viewport (mirror_x uv) <-> in_viewport uv)
  /\ (in_viewport (mirror_y uv) <-> in_viewport uv).
Proof.
  assert (Hx : vigDist (mirror_x uv) = vigDist uv).
  { rewrite !vigDist_eq. f_equal. simpl. ring. }
  assert (Hy : vigDist (mirror_y uv) = vigDist uv).
  { rewrite !vigDist_eq. f_equal. simpl. ring. }
  unfold vigDark. rewrite Hx, Hy. split; [reflexivity |]. split; [reflexivity |].
  unfold in_viewport, mirror_x, mirror_y; simpl. split; split; intros [H1 H2]; lra.
Qed.

(** X4: the vignette darkening never decreases as the scaled distance
    from the centre grows. *)
Theorem vignette_grows_outwards (uv1 uv2 : vec2) :
  vigDist uv1 <= vigDist uv2 -> vigDark uv1 <= vigDark uv2.
Proof.
  intros H. unfold vigDark. rewrite !smoothstep_vig.
  apply Rmult_le_compat_r; [lra |].
  pose proof (clamp_bounds ((vigDist uv1 - 0.6) / 0.8) 0 1 Rle_0_1) as B1.
  pose proof (clamp_bounds ((vigDist uv2 - 0.6) / 0.8) 0 1 Rle_0_1) as B2.
  apply smooth_poly_mono; try lra.
  unfold clamp. apply Rle_min_compat_r. apply Rle_max_compat_r. lra.
Qed.

Lemma vignette_grows_outwards_witness :
  vigDist (mkvec2 0.5 0.5) <= vigDist (mkvec2 1 1)
  /\ vigDark (mkvec2 0.5 0.5) <= vigDark (mkvec2 1 1).
Proof.
  assert (H : vigDist (mkvec2 0.5 0.5) <= vigDist (mkvec2 1 1)).
  { rewrite !vigDist_eq. apply sqrt_le_1_alt. simpl. lra. }
  split; [exact H | exact (vignette_grows_outwards _ _ H)].
Defined.

(** X5: on the rectangle 0.2 <= x <= 0.8, 0.1 <= y <= 0.9 the scaled
    distance is at most 0.6 and the vignette darkening is exactly 0. *)
Theorem vignette_spares_the_middle (uv : vec2) :
  0.2 <= vx uv <= 0.8 -> 0.1 <= vy uv <= 0.9 ->
  vigDist uv <= 0.6 /\ vigDark uv = 0.
Proof.
  intros Hx Hy.
  assert (Hd : vigDist uv <= 0.6).
  { rewrite vigDist_eq. rewrite <- (sqrt_square 0.6) by lra. apply sqrt_le_1_alt.
    assert (H1 : (2 * vx uv - 1) * (2 * vx uv - 1) <= 0.36) by nra.
    assert (H2 : (2 * vy uv - 1) * (2 * vy uv - 1) <= 0.64) by nra.
    nra. }
  split; [exact Hd |].
  unfold vigDark. rewrite smoothstep_vig, clamp_below by lra.
  unfold smooth_poly. lra.
Qed.

Lemma vignette_spares_the_middle_witness :
  vigDist (mkvec2 0.8 0.9) <= 0.6 /\ vigDark (mkvec2 0.8 0.9) = 0.
Proof.
  apply (vignette_spares_the_middle (mkvec2 0.8 0.9)); simpl; lra.
Defined.

(** X6: during the first thirtieth of a second the tick is 0, [hash]
    of the origin is 0, and the flicker term is -0.04, its lowest value. *)
Theorem first_tick_flicker (t : R) :
  0 <= t < 1 / 30 -> hash (mkvec2 0 0) = 0 /\ flickerDark t = -0.04.
Proof.
  intros Ht.
  assert (Hh : hash (mkvec2 0 0) = 0).
  { unfold hash, dot, fract, floor. simpl.
    replace (0 * 127.1 + 0 * 311.7) with 0 by lra.
    rewrite sin_0, Rmult_0_l. rewrite (Zfloor_eq 0 0) by (simpl; lra). simpl. lra. }
  split; [exact Hh |].
  unfold flickerDark. unfold floor at 1.
  rewrite (Zfloor_eq 0 (t * 30.0)) by (simpl; lra).
  replace 0.0 with 0 by lra. rewrite Hh. lra.
Qed.

Lemma first_tick_flicker_witness :
  0 <= 0.01 < 1 / 30 /\ flickerDark 0.01 = -0.04.
Proof.
  assert (H : 0 <= 0.01 < 1 / 30) by lra.
  split; [exact H | exact (proj2 (first_tick_flicker 0.01 H))].
Defined.


(** X7: the shader's scanline darkening is that of [scanDark_at] at
    the constant the source writes, and whatever value [c] the constant
    takes, the darkening is exactly 0.25 wherever the phase [row * c]
    lies in [[(2k + 1) PI, (2k + 2) PI]] and strictly below 0.25
    wherever it lies strictly between [2k PI] and [(2k + 1) PI]: dark
    and lit bands are equally wide and the dark ones are flat. *)
Theorem dark_half_of_every_period (c : R) (uv res : vec2) (k : nat) :
  scanDark uv res = scanDark_at 3.14159265 uv res
  /\ ((2 * INR k + 1) * PI <= vy uv * vy res * c <= (2 * INR k + 2) * PI ->
      scanDark_at c uv res = 0.25)
  /\ (2 * INR k * PI < vy uv * vy res * c < (2 * INR k + 1) * PI ->
      0 <= scanDark_at c uv res < 0.25).
Proof.
  split; [reflexivity |].
  unfold scanDark_at. rewrite scanlineY_eq.
  split; [apply dark_half | apply lit_half].
Qed.

Lemma dark_half_of_every_period_witness :
  ((2 * INR 0 + 1) * PI <= vy (mkvec2 0 0.9) * vy (mkvec2 1 2) * binary32_pi
     <= (2 * INR 0 + 2) * PI
   /\ scanDark_at binary32_pi (mkvec2 0 0.9) (mkvec2 1 2) = 0.25)
  /\ (2 * INR 0 * PI < vy (mkvec2 0 0.25) * vy (mkvec2 1 2) * binary32_pi
        < (2 * INR 0 + 1) * PI
      /\ 0 <= scanDark_at binary32_pi (mkvec2 0 0.25) (mkvec2 1 2) < 0.25).
Proof.
  assert (H : (2 * INR 0 + 1) * PI
              <= vy (mkvec2 0 0.9) * vy (mkvec2 1 2) * binary32_pi
              <= (2 * INR 0 + 2) * PI).
  { pose proof PI_digits as [P0 P1]. unfold binary32_pi. simpl in *. lra. }
  assert (H' : 2 * INR 0 * PI
               < vy (mkvec2 0 0.25) * vy (mkvec2 1 2) * binary32_pi
               < (2 * INR 0 + 1) * PI).
  { pose proof PI_digits as [P0 P1]. unfold binary32_pi. simpl in *. lra. }
  split; (split; [eassumption |]).
  - exact (proj1 (proj2 (dark_half_of_every_period
                           binary32_pi (mkvec2 0 0.9) (mkvec2 1 2) 0)) H).
  - exact (proj2 (proj2 (dark_half_of_every_period
                           binary32_pi (mkvec2 0 0.25) (mkvec2 1 2) 0)) H').
Defined.

End ShaderLaws.

(* ================================================================== *)
(** * Further properties of the page *)
(* ================================================================== *)

Module PageLaws.
Import Dom PageSpec PageFacts PageMore.
Local Open Scope string_scope.
Local Open Scope list_scope.

(** ** [compileShader] and [linkProgram] *)

(** X8: [compileShader] never throws and leaves the world as it was;
    it answers [null] exactly when the shader object cannot be created
    or its compile status is false, and otherwise a shader of the type
    and source it was given. *)
Theorem compileShader_outcome (gl : Crt.WebGLRenderingContext) (type : ShaderType)
  (source : ShaderSource) (w : World) :
  exists r,
    Crt.compileShader gl type source w = Normal r w
    /\ (r = None
        <-> creates_shader (platform w) type = false
            \/ compiles (platform w) type source = false)
    /\ (forall shader, r = Some shader ->
         shader_type shader = type /\ shader_source shader = Some source).
Proof.
  unfold Crt.compileShader, Crt.createShader, Crt.COMPILE_STATUS, Crt.deleteShader,
    Crt.shaderSource, bind, get, ret.
  destruct (creates_shader (platform w) type); cbn.
  - destruct (compiles (platform w) type source); cbn; eexists;
      (split; [reflexivity |]); split; try (intros sh H; inversion H; auto);
      split; try discriminate; auto.
    intros [H | H]; discriminate.
  - eexists. split; [reflexivity |]. split; [split; auto | discriminate].
Qed.

(** X9: [linkProgram] never throws and leaves the world as it was; it
    answers [null] exactly when the program object cannot be created or
    its link status is false, and otherwise a program with the vertex
    and the fragment shader attached in this order. *)
Theorem linkProgram_outcome (gl : Crt.WebGLRenderingContext) (vs fs : WebGLShader)
  (w : World) :
  exists r,
    Crt.linkProgram gl vs fs w = Normal r w
    /\ (r = None
        <-> creates_program (platform w) = false \/ links (platform w) = false)
    /\ (forall program, r = Some program -> attached program = [vs; fs]).
Proof.
  unfold Crt.linkProgram, Crt.createProgram, Crt.LINK_STATUS, Crt.deleteProgram,
    Crt.attachShader, bind, get, ret.
  destruct (creates_program (platform w)); cbn.
  - destruct (links (platform w)); cbn; eexists;
      (split; [reflexivity |]); split; try (intros pr H; inversion H; auto);
      split; try discriminate; auto.
    intros [H | H]; discriminate.
  - eexists. split; [reflexivity |]. split; [split; auto | discriminate].
Qed.

(** ** [initCRT] when everything works *)

(** X10: on a platform where every step succeeds, [initCRT] returns
    with the layers and the canvas appended, the canvas and the viewport
    at the window's size, blending on with factors (ONE,
    ONE_MINUS_SRC_ALPHA), the linked program in use, the quad in the
    buffer, nothing drawn yet, one resize listener, and one pending
    frame whose start time is the clock at that moment. *)
Theorem initCRT_sets_the_stage (p : Platform) (doc : list Node) (iw ih : N) (t : R) :
  init_ok p = true ->
  exists w g,
    Crt.initCRT (fresh p doc iw ih t) = Normal tt w
    /\ body w = doc ++ map Crt.layer_of Crt.bloomLayers ++ [Crt.canvas_element]
    /\ canvas_width w = iw /\ canvas_height w = ih
    /\ gl w = Some g
    /\ viewport g = (0, 0, iw, ih)%N
    /\ blend g = true /\ blendFunc g = (GL_ONE, GL_ONE_MINUS_SRC_ALPHA)
    /\ program_in_use g
       = Some (mkProgram [mkShader GL_VERTEX_SHADER (Some VERTEX_SHADER);
                          mkShader GL_FRAGMENT_SHADER (Some FRAGMENT_SHADER)])
    /\ array_buffer g = [-1; -1; 1; -1; -1; 1; 1; 1]%Z
    /\ draws g = []
    /\ resize_listeners w = [fn_resize]
    /\ frame_requests w = [fn_render t]
    /\ click_listeners w = [].
Proof.
  intros Hok. eexists. eexists.
  split; [apply initCRT_started; exact Hok |].
  cbn. repeat split; reflexivity.
Qed.

Lemma initCRT_sets_the_stage_witness :
  exists w g,
    Crt.initCRT (fresh capable plain_menu 800 600 0) = Normal tt w
    /\ body w = plain_menu ++ map Crt.layer_of Crt.bloomLayers ++ [Crt.canvas_element]
    /\ canvas_width w = 800%N /\ canvas_height w = 600%N
    /\ gl w = Some g
    /\ viewport g = (0, 0, 800, 600)%N
    /\ blend g = true /\ blendFunc g = (GL_ONE, GL_ONE_MINUS_SRC_ALPHA)
    /\ program_in_use g
       = Some (mkProgram [mkShader GL_VERTEX_SHADER (Some VERTEX_SHADER);
                          mkShader GL_FRAGMENT_SHADER (Some FRAGMENT_SHADER)])
    /\ array_buffer g = [-1; -1; 1; -1; -1; 1; 1; 1]%Z
    /\ draws g = []
    /\ resize_listeners w = [fn_resize]
    /\ frame_requests w = [fn_render 0]
    /\ click_listeners w = [].
Proof.
  exact (initCRT_sets_the_stage capable plain_menu 800 600 0 eq_refl).
Defined.

(** ** Along a run *)

Lemma dispatch_toggles_listeners n (cbs : list Callback) w :
  Forall (toggles_below n) cbs ->
  click_listeners (Page.dispatch cbs w) = click_listeners w.
Proof.
  unfold Page.dispatch. intros Hall. revert w.
  induction Hall as [| cb cbs (b & l & -> & _ & _) _ IH]; intros w; simpl.
  - reflexivity.
  - rewrite toggle_eq. cbn [world_of]. rewrite IH. reflexivity.
Qed.

(** One event leaves the pipeline, the listeners and the pending
    frame as they were. *)
Lemma handle_keeps n t0 ok e w :
  Inv n t0 ok w ->
  option_map pipeline (gl (Page.handle e w)) = option_map pipeline (gl w)
  /\ click_listeners (Page.handle e w) = click_listeners w.
Proof.
  intros Hinv. destruct e as [iw ih | t | target]; unfold Page.handle; cbn zeta.
  - cbn [resize_listeners with_window].
    rewrite (inv_resize _ _ _ _ Hinv). destruct ok.
    + rewrite dispatch_one. cbn [Page.call]. rewrite resize_eq. cbn.
      destruct (gl w); split; reflexivity.
    + split; reflexivity.
  - cbn [frame_requests with_now].
    rewrite (inv_frame _ _ _ _ Hinv). destruct ok.
    + rewrite dispatch_one. cbn [Page.call]. rewrite render_eq. cbn.
      destruct (gl w); split; reflexivity.
    + split; reflexivity.
  - pose proof (listeners_on_toggles n target w (inv_click _ _ _ _ Hinv)) as Ht.
    destruct (dispatch_toggles_rest n _ w Ht) as (-> & _).
    rewrite (dispatch_toggles_listeners n _ w Ht). split; reflexivity.
Qed.

Lemma run_keeps n t0 ok evs w :
  Inv n t0 ok w ->
  option_map pipeline (gl (Page.run evs w)) = option_map pipeline (gl w)
  /\ click_listeners (Page.run evs w) = click_listeners w.
Proof.
  revert w. induction evs as [| e evs IH]; intros w Hinv; [split; reflexivity |].
  change (Page.run (e :: evs) w) with (Page.run evs (Page.handle e w)).
  destruct (IH _ (Inv_handle _ _ _ e _ Hinv)) as (-> & ->).
  exact (handle_keeps n t0 ok e w Hinv).
Qed.

Lemma loaded_pipeline p doc iw ih t :
  init_ok p = true ->
  option_map pipeline (gl (world_of (Page.loaded p doc iw ih t)))
  = Some (true, (GL_ONE, GL_ONE_MINUS_SRC_ALPHA), Some the_program, Crt.vertices).
Proof.
  intros Hok. rewrite loaded_eq, Hok.
  destruct (initMenu_cases (started (fresh p doc iw ih t))); reflexivity.
Qed.

(** X11: after any sequence of events the context still has blending
    on with factors (ONE, ONE_MINUS_SRC_ALPHA), the same program in use
    and the same quad in the buffer: the closures never reconfigure it. *)
Theorem pipeline_is_set_once (p : Platform) (doc : list Node) (iw ih : N) (t : R)
  (events : list Page.Event) :
  init_ok p = true ->
  exists g,
    gl (Page.run events (world_of (Page.loaded p doc iw ih t))) = Some g
    /\ blend g = true
    /\ blendFunc g = (GL_ONE, GL_ONE_MINUS_SRC_ALPHA)
    /\ program_in_use g
       = Some (mkProgram [mkShader GL_VERTEX_SHADER (Some VERTEX_SHADER);
                          mkShader GL_FRAGMENT_SHADER (Some FRAGMENT_SHADER)])
    /\ array_buffer g = [-1; -1; 1; -1; -1; 1; 1; 1]%Z.
Proof.
  intros Hok.
  destruct (run_keeps _ _ _ events _ (Inv_loaded p doc iw ih t)) as (Hp & _).
  rewrite (loaded_pipeline p doc iw ih t Hok) in Hp.
  destruct (gl (Page.run events _)) as [g |]; [| discriminate].
  exists g. inversion Hp as [[H1 H2 H3 H4]]. auto.
Qed.

Lemma pipeline_is_set_once_witness :
  exists g,
    gl (Page.run [Page.Resize 1920 1080; Page.AnimationFrame 16; Page.Click [1; 0]%nat]
          (world_of (Page.loaded capable plain_menu 800 600 0))) = Some g
    /\ blend g = true
    /\ blendFunc g = (GL_ONE, GL_ONE_MINUS_SRC_ALPHA)
    /\ program_in_use g
       = Some (mkProgram [mkShader GL_VERTEX_SHADER (Some VERTEX_SHADER);
                          mkShader GL_FRAGMENT_SHADER (Some FRAGMENT_SHADER)])
    /\ array_buffer g = [-1; -1; 1; -1; -1; 1; 1; 1]%Z.
Proof.
  exact (pipeline_is_set_once capable plain_menu 800 600 0
           [Page.Resize 1920 1080; Page.AnimationFrame 16; Page.Click [1; 0]%nat]
           eq_refl).
Defined.

(** ** The draw log *)

Lemma frame_window n t0 ok t w :
  Inv n t0 ok w ->
  innerWidth (Page.handle (Page.AnimationFrame t) w) = innerWidth w
  /\ innerHeight (Page.handle (Page.AnimationFrame t) w) = innerHeight w.
Proof.
  intros Hinv. unfold Page.handle. cbn zeta. cbn [frame_requests with_now].
  rewrite (inv_frame _ _ _ _ Hinv). destruct ok.
  - rewrite dispatch_one. cbn [Page.call]. rewrite render_eq. cbn. auto.
  - cbn. auto.
Qed.

Lemma draw_log n t0 evs w :
  Inv n t0 true w ->
  draws_of (Page.run evs w)
  = draws_of w ++ expected_draws t0 (innerWidth w, innerHeight w) evs.
Proof.
  revert w. induction evs as [| e evs IH]; intros w Hinv.
  - simpl. rewrite app_nil_r. reflexivity.
  - change (Page.run (e :: evs) w) with (Page.run evs (Page.handle e w)).
    rewrite (IH _ (Inv_handle _ _ _ e _ Hinv)).
    destruct e as [iw ih | t | target]; cbn [expected_draws].
    + rewrite (resize_draws _ _ _ _ _ _ Hinv).
      destruct (resize_window _ _ iw ih _ Hinv) as (-> & ->). reflexivity.
    + rewrite (frame_draws _ _ _ _ Hinv), <- app_assoc.
      destruct (frame_window _ _ _ t _ Hinv) as (-> & ->). reflexivity.
    + destruct (click_rest _ _ _ target _ Hinv) as (Eg & -> & ->).
      unfold draws_of. rewrite Eg. reflexivity.
Qed.

Lemma loaded_fields p doc iw ih t :
  init_ok p = true ->
  draws_of (world_of (Page.loaded p doc iw ih t)) = []
  /\ clears_of (world_of (Page.loaded p doc iw ih t)) = 0%nat
  /\ innerWidth (world_of (Page.loaded p doc iw ih t)) = iw
  /\ innerHeight (world_of (Page.loaded p doc iw ih t)) = ih.
Proof.
  intros Hok. rewrite loaded_eq, Hok.
  destruct (initMenu_cases (started (fresh p doc iw ih t))); cbn; auto.
Qed.

(** X12: the draws of a run are determined by its events: one draw per
    animation frame, in order, with time [(now - start) / 1000],
    resolution and viewport equal to the size of the latest resize
    before it (the window size at load if there was none), four
    vertices from index 0. *)
Theorem draws_follow_events (p : Platform) (doc : list Node) (iw ih : N) (t : R)
  (events : list Page.Event) :
  init_ok p = true ->
  draws_of (Page.run events (world_of (Page.loaded p doc iw ih t)))
  = expected_draws t (iw, ih) events.
Proof.
  intros Hok.
  pose proof (Inv_loaded p doc iw ih t) as Hinv. rewrite Hok in Hinv.
  rewrite (draw_log _ _ events _ Hinv).
  destruct (loaded_fields p doc iw ih t Hok) as (-> & _ & -> & ->). reflexivity.
Qed.

Lemma draws_follow_events_witness :
  draws_of
    (Page.run [Page.AnimationFrame 16; Page.Resize 1920 1080; Page.AnimationFrame 33]
       (world_of (Page.loaded capable plain_menu 800 600 0)))
  = expected_draws 0 (800, 600)%N
      [Page.AnimationFrame 16; Page.Resize 1920 1080; Page.AnimationFrame 33].
Proof.
  exact (draws_follow_events capable plain_menu 800 600 0
           [Page.AnimationFrame 16; Page.Resize 1920 1080; Page.AnimationFrame 33]
           eq_refl).
Defined.

Lemma handle_clears n t0 e w :
  Inv n t0 true w ->
  clears_of (Page.handle e w)
  = (clears_of w + List.length (frame_times [e]))%nat.
Proof.
  intros Hinv. pose proof (inv_sync _ _ _ _ Hinv) as (_ & _ & Hv).
  unfold viewport_of in Hv.
  destruct e as [iw ih | t | target]; unfold Page.handle; cbn zeta.
  - cbn [resize_listeners with_window].
    rewrite (inv_resize _ _ _ _ Hinv), dispatch_one. cbn [Page.call].
    rewrite resize_eq. unfold clears_of. cbn.
    destruct (gl w); cbn; lia.
  - cbn [frame_requests with_now].
    rewrite (inv_frame _ _ _ _ Hinv), dispatch_one. cbn [Page.call].
    rewrite render_eq. unfold clears_of. cbn.
    destruct (gl w); cbn; [lia | discriminate].
  - pose proof (listeners_on_toggles n target w (inv_click _ _ _ _ Hinv)) as Ht.
    unfold clears_of. destruct (dispatch_toggles_rest n _ w Ht) as (-> & _).
    cbn. lia.
Qed.

Lemma run_clears n t0 evs w :
  Inv n t0 true w ->
  clears_of (Page.run evs w) = (clears_of w + List.length (frame_times evs))%nat.
Proof.
  revert w. induction evs as [| e evs IH]; intros w Hinv; [cbn; lia |].
  change (Page.run (e :: evs) w) with (Page.run evs (Page.handle e w)).
  rewrite (IH _ (Inv_handle _ _ _ e _ Hinv)), (handle_clears _ _ e _ Hinv).
  destruct e; cbn; lia.
Qed.

Lemma expected_draws_length t0 size evs :
  List.length (expected_draws t0 size evs) = List.length (frame_times evs).
Proof.
  revert size. induction evs as [| [iw ih | t | target] evs IH]; intros size;
    cbn; auto.
Qed.

(** X13: a run has cleared and drawn exactly once per animation frame
    (the loop neither stalls nor forks), every draw being four vertices
    from index 0. *)
Theorem one_clear_and_one_draw_per_frame (p : Platform) (doc : list Node)
  (iw ih : N) (t : R) (events : list Page.Event) :
  init_ok p = true ->
  List.length (draws_of (Page.run events (world_of (Page.loaded p doc iw ih t))))
  = List.length (frame_times events)
  /\ clears_of (Page.run events (world_of (Page.loaded p doc iw ih t)))
     = List.length (frame_times events)
  /\ Forall (fun d => draw_first d = 0%N /\ draw_count d = 4%N)
       (draws_of (Page.run events (world_of (Page.loaded p doc iw ih t)))).
Proof.
  intros Hok.
  pose proof (Inv_loaded p doc iw ih t) as Hinv. rewrite Hok in Hinv.
  destruct (loaded_fields p doc iw ih t Hok) as (Hd & Hc & Hw & Hh).
  rewrite (draw_log _ _ events _ Hinv), (run_clears _ _ events _ Hinv), Hd, Hc.
  cbn [app Nat.add]. split; [apply expected_draws_length |]. split; [reflexivity |].
  generalize (innerWidth (world_of (Page.loaded p doc iw ih t)),
              innerHeight (world_of (Page.loaded p doc iw ih t))).
  induction events as [| [a b | t' | target] events IH]; intros size; cbn; auto.
Qed.

Lemma one_clear_and_one_draw_per_frame_witness :
  List.length
    (draws_of
       (Page.run [Page.AnimationFrame 16; Page.Resize 1920 1080; Page.AnimationFrame 33]
          (world_of (Page.loaded capable plain_menu 800 600 0))))
  = List.length
      (frame_times [Page.AnimationFrame 16; Page.Resize 1920 1080; Page.AnimationFrame 33])
  /\ clears_of
       (Page.run [Page.AnimationFrame 16; Page.Resize 1920 1080; Page.AnimationFrame 33]
          (world_of (Page.loaded capable plain_menu 800 600 0)))
     = List.length
         (frame_times [Page.AnimationFrame 16; Page.Resize 1920 1080; Page.AnimationFrame 33])
  /\ Forall (fun d => draw_first d = 0%N /\ draw_count d = 4%N)
       (draws_of
          (Page.run [Page.AnimationFrame 16; Page.Resize 1920 1080; Page.AnimationFrame 33]
             (world_of (Page.loaded capable plain_menu 800 600 0)))).
Proof.
  exact (one_clear_and_one_draw_per_frame capable plain_menu 800 600 0
           [Page.AnimationFrame 16; Page.Resize 1920 1080; Page.AnimationFrame 33]
           eq_refl).
Defined.

(** ** Resizes *)

(** X14: two resize events in a row leave the page exactly as the
    second one alone would, on every platform and at any point of the
    page's life. *)
Theorem last_resize_wins (p : Platform) (doc : list Node) (iw ih : N) (t : R)
  (events : list Page.Event) (a b c d : N) :
  Page.run [Page.Resize a b; Page.Resize c d]
    (Page.run events (world_of (Page.loaded p doc iw ih t)))
  = Page.run [Page.Resize c d]
      (Page.run events (world_of (Page.loaded p doc iw ih t))).
Proof.
  pose proof (Inv_page p doc iw ih t events) as Hinv.
  set (w := Page.run events _) in *.
  pose proof (Inv_handle _ _ _ (Page.Resize a b) _ Hinv) as Hinv'.
  change (Page.handle (Page.Resize c d) (Page.handle (Page.Resize a b) w)
          = Page.handle (Page.Resize c d) w).
  revert Hinv'. unfold Page.handle. cbn zeta. cbn [resize_listeners with_window].
  rewrite (inv_resize _ _ _ _ Hinv). destruct (init_ok p).
  - rewrite dispatch_one. cbn [Page.call]. rewrite resize_eq. cbn [world_of].
    intros Hinv'. cbn [resize_listeners resized with_window].
    rewrite (inv_resize _ _ _ _ Hinv). rewrite !dispatch_one. cbn [Page.call].
    rewrite !resize_eq. cbn [world_of]. unfold resized, set_viewport. cbn.
    destruct (gl w); reflexivity.
  - intros _. cbn. rewrite (inv_resize _ _ _ _ Hinv). reflexivity.
Qed.

(** ** Listeners *)

(** X15: no event handler registers a listener: the resize and click
    listeners and the pending frame callbacks after any run are those
    present after load, and there is at most one of each. *)
Theorem nothing_registers_after_load (p : Platform) (doc : list Node) (iw ih : N)
  (t : R) (events : list Page.Event) :
  resize_listeners (Page.run events (world_of (Page.loaded p doc iw ih t)))
  = resize_listeners (world_of (Page.loaded p doc iw ih t))
  /\ click_listeners (Page.run events (world_of (Page.loaded p doc iw ih t)))
     = click_listeners (world_of (Page.loaded p doc iw ih t))
  /\ frame_requests (Page.run events (world_of (Page.loaded p doc iw ih t)))
     = frame_requests (world_of (Page.loaded p doc iw ih t))
  /\ (List.length (resize_listeners (world_of (Page.loaded p doc iw ih t))) <= 1)%nat
  /\ (List.length (click_listeners (world_of (Page.loaded p doc iw ih t))) <= 1)%nat
  /\ (List.length (frame_requests (world_of (Page.loaded p doc iw ih t))) <= 1)%nat.
Proof.
  pose proof (Inv_page p doc iw ih t events) as Hrun.
  pose proof (Inv_loaded p doc iw ih t) as Hload.
  rewrite (inv_resize _ _ _ _ Hrun), (inv_resize _ _ _ _ Hload).
  rewrite (inv_frame _ _ _ _ Hrun), (inv_frame _ _ _ _ Hload).
  destruct (run_keeps _ _ _ events _ Hload) as (_ & ->).
  split; [reflexivity |]. split; [reflexivity |]. split; [reflexivity |].
  split; [destruct (init_ok p); cbn; lia |].
  split; [| destruct (init_ok p); cbn; lia].
  rewrite loaded_eq.
  destruct (initMenu_cases (if init_ok p then started (fresh p doc iw ih t)
                            else abandoned (fresh p doc iw ih t)));
    destruct (init_ok p); cbn; lia.
Qed.
(** ** The clock *)

Lemma sorted_map_elapsed (t0 : R) (l : list R) :
  StronglySorted Rle l ->
  StronglySorted Rle (map (fun now => (now - t0) / 1000)%R l).
Proof.
  induction 1 as [| a l Hs IH Ha]; cbn; constructor; [exact IH |].
  rewrite Forall_forall in *. intros y Hy. apply in_map_iff in Hy.
  destruct Hy as (x & <- & Hx). pose proof (Ha x Hx). lra.
Qed.

(** X16: if the clock never runs backwards from the reading taken at
    load, the elapsed times handed to the shader start at or above 0
    and never decrease. *)
Theorem elapsed_never_runs_backwards (p : Platform) (doc : list Node) (iw ih : N)
  (t : R) (events : list Page.Event) :
  init_ok p = true ->
  StronglySorted Rle (t :: frame_times events) ->
  StronglySorted Rle
    (0%R :: map draw_time
              (draws_of (Page.run events (world_of (Page.loaded p doc iw ih t))))).
Proof.
  intros Hok Hs.
  pose proof (Inv_loaded p doc iw ih t) as Hinv. rewrite Hok in Hinv.
  rewrite (draw_times _ _ events _ Hinv).
  destruct (loaded_fields p doc iw ih t Hok) as (-> & _). cbn [map app].
  apply (sorted_map_elapsed t) in Hs. cbn [map] in Hs.
  replace ((t - t) / 1000)%R with 0%R in Hs by lra. exact Hs.
Qed.

Lemma elapsed_never_runs_backwards_witness :
  StronglySorted Rle
    (0%R :: map draw_time
              (draws_of
                 (Page.run [Page.AnimationFrame 1016; Page.AnimationFrame 1033]
                    (world_of (Page.loaded capable plain_menu 800 600 1000))))).
Proof.
  apply (elapsed_never_runs_backwards capable plain_menu 800 600 1000
           [Page.AnimationFrame 1016; Page.AnimationFrame 1033] eq_refl).
  cbn. repeat constructor; lra.
Defined.

(** ** The menu and the overlay do not interfere *)

Lemma first_match_app_none {A : Type} (f : A -> option NodeRef) (l r : list A) :
  Forall (fun a => f a = None) r ->
  forall i, first_match f i (l ++ r) = first_match f i l.
Proof.
  intros Hr. induction l as [| a l IH]; intros i; cbn.
  - revert i. induction Hr as [| b r Hb _ IHr]; intros i; cbn; [reflexivity |].
    rewrite Hb. apply IHr.
  - destruct (f a); [reflexivity | apply IH].
Qed.

Lemma overlay_has_no_list :
  Forall (fun a => select_descendant "nav" "ul" false a = None) overlay.
Proof. repeat constructor. Qed.

Lemma select_past_overlay (doc : list Node) :
  select (SelTag "nav") (doc ++ overlay) = select (SelTag "nav") doc
  /\ select (SelDescendant "nav" "ul") (doc ++ overlay)
     = select (SelDescendant "nav" "ul") doc.
Proof.
  split; cbn; apply first_match_app_none;
    [exact overlay_has_no_nav | exact overlay_has_no_list].
Qed.

Lemma initMenu_eq (w : World) :
  Menu.initMenu w
  = match select (SelTag "nav") (body w),
          select (SelDescendant "nav" "ul") (body w) with
    | Some nav, Some list =>
        match Menu.child_index nav list with
        | Some i => Normal tt (menu_installed nav i w)
        | None => Throws NotFoundError w
        end
    | _, _ => Normal tt w
    end.
Proof.
  unfold Menu.initMenu, Menu.querySelector, Menu.insertBefore,
    Menu.addEventListener_click, bind, get, modify, ret.
  destruct (select (SelTag "nav") (body w)) as [nav |]; [| reflexivity].
  destruct (select (SelDescendant "nav" "ul") (body w)) as [list |]; [| reflexivity].
  destruct (Menu.child_index nav list); reflexivity.
Qed.

Lemma select_nonempty (s : Selector) (forest : list Node) (p : NodeRef) :
  select s forest = Some p -> exists j q, p = j :: q /\ (j < List.length forest)%nat.
Proof.
  intros H.
  assert (Hf : exists f, first_match f 0 forest = Some p).
  { destruct s; cbn in H; eexists; exact H. }
  destruct Hf as (f & Hf).
  destruct (first_match_found f forest 0 p Hf) as (j & a & q & -> & Hn & _).
  exists j, q. split; [reflexivity |]. apply nth_error_Some. rewrite Hn. discriminate.
Qed.

(** X17: on every platform [initMenu], run after [initCRT], ends as it
    would on the bare document: same normal or exceptional end, same
    click listeners, and the same document followed by the layers and
    the canvas. *)
Theorem menu_ignores_the_overlay (p : Platform) (doc : list Node) (iw ih : N) (t : R) :
  returns (Page.loaded p doc iw ih t) = returns (Menu.initMenu (fresh p doc iw ih t))
  /\ body (world_of (Page.loaded p doc iw ih t))
     = body (world_of (Menu.initMenu (fresh p doc iw ih t)))
       ++ map Crt.layer_of Crt.bloomLayers ++ [Crt.canvas_element]
  /\ click_listeners (world_of (Page.loaded p doc iw ih t))
     = click_listeners (world_of (Menu.initMenu (fresh p doc iw ih t))).
Proof.
  change (map Crt.layer_of Crt.bloomLayers ++ [Crt.canvas_element]) with overlay.
  rewrite loaded_eq, !initMenu_eq.
  set (w1 := if init_ok p then _ else _).
  assert (Hb : body w1 = doc ++ overlay) by (unfold w1; destruct (init_ok p); reflexivity).
  assert (Hc : click_listeners w1 = []) by (unfold w1; destruct (init_ok p); reflexivity).
  rewrite Hb. destruct (select_past_overlay doc) as (-> & ->).
  cbn [body fresh].
  destruct (select (SelTag "nav") doc) as [nav |] eqn:Hnav;
    [| cbn [returns world_of body click_listeners fresh]; rewrite Hb, Hc; auto].
  destruct (select (SelDescendant "nav" "ul") doc) as [list |];
    [| cbn [returns world_of body click_listeners fresh]; rewrite Hb, Hc; auto].
  destruct (Menu.child_index nav list) as [i |];
    [| cbn [returns world_of body click_listeners fresh]; rewrite Hb, Hc; auto].
  destruct (select_nonempty _ _ _ Hnav) as (j & q & -> & Hj).
  destruct (alter_at_below (insert_child menu_button i) (j :: q) doc overlay Hj)
    as (E & _).
  unfold menu_installed.
  cbn [returns world_of body click_listeners fresh with_body with_click_listeners].
  rewrite Hb, Hc, E. auto.
Qed.

(** ** [initMenu] *)

(** X18: on a document with no [nav], or with no [ul] below a [nav],
    [initMenu] changes nothing; the loaded page is the document followed
    by the layers and the canvas, with no click listener. *)
Theorem page_without_menu_is_left_alone (p : Platform) (doc : list Node) (iw ih : N)
  (t : R) :
  select (SelTag "nav") doc = None
  \/ select (SelDescendant "nav" "ul") doc = None ->
  Menu.initMenu (fresh p doc iw ih t) = Normal tt (fresh p doc iw ih t)
  /\ returns (Page.loaded p doc iw ih t) = true
  /\ body (world_of (Page.loaded p doc iw ih t))
     = doc ++ map Crt.layer_of Crt.bloomLayers ++ [Crt.canvas_element]
  /\ click_listeners (world_of (Page.loaded p doc iw ih t)) = [].
Proof.
  intros H.
  assert (E : Menu.initMenu (fresh p doc iw ih t) = Normal tt (fresh p doc iw ih t)).
  { rewrite initMenu_eq. cbn [body fresh].
    destruct H as [-> | ->]; [reflexivity |].
    destruct (select (SelTag "nav") doc); reflexivity. }
  split; [exact E |].
  change (map Crt.layer_of Crt.bloomLayers ++ [Crt.canvas_element]) with overlay.
  rewrite loaded_eq, initMenu_eq.
  set (w1 := if init_ok p then _ else _).
  assert (Hb : body w1 = doc ++ overlay)
    by (unfold w1; destruct (init_ok p); reflexivity).
  assert (Hc : click_listeners w1 = [])
    by (unfold w1; destruct (init_ok p); reflexivity).
  rewrite Hb. destruct (select_past_overlay doc) as (-> & ->).
  destruct H as [-> | ->]; [cbn; auto |].
  destruct (select (SelTag "nav") doc); cbn; auto.
Qed.

Lemma page_without_menu_is_left_alone_witness :
  Menu.initMenu (fresh no_webgl [element "header" []] 800 600 0)
  = Normal tt (fresh no_webgl [element "header" []] 800 600 0)
  /\ returns (Page.loaded no_webgl [element "header" []] 800 600 0) = true
  /\ body (world_of (Page.loaded no_webgl [element "header" []] 800 600 0))
     = [element "header" []] ++ map Crt.layer_of Crt.bloomLayers ++ [Crt.canvas_element]
  /\ click_listeners (world_of (Page.loaded no_webgl [element "header" []] 800 600 0))
     = [].
Proof.
  apply (page_without_menu_is_left_alone no_webgl [element "header" []] 800 600 0).
  left. reflexivity.
Defined.

(** X19: [initMenu] throws exactly when both queries answer and the
    list found is not a child of the [nav] found; what it throws is
    [NotFoundError], and the world is then as it was: no button, no
    listener. *)
Theorem menu_throws_only_when_misplaced (w : World) :
  (returns (Menu.initMenu w) = false
   <-> exists nav list,
         select (SelTag "nav") (body w) = Some nav
         /\ select (SelDescendant "nav" "ul") (body w) = Some list
         /\ (forall i, list <> nav ++ [i]))
  /\ (returns (Menu.initMenu w) = false -> Menu.initMenu w = Throws NotFoundError w).
Proof.
  rewrite initMenu_eq.
  destruct (select (SelTag "nav") (body w)) as [nav |].
  2:{ split; [split; [discriminate | intros (? & ? & ? & _); discriminate]
             | discriminate]. }
  destruct (select (SelDescendant "nav" "ul") (body w)) as [list |].
  2:{ split; [split; [discriminate | intros (? & ? & _ & ? & _); discriminate]
             | discriminate]. }
  destruct (Menu.child_index nav list) as [i |] eqn:Hi.
  - apply child_index_spec in Hi. split; [split; [discriminate |] | discriminate].
    intros (nav' & list' & Hn & Hl & Hne). inversion Hn; inversion Hl; subst.
    exfalso. exact (Hne i eq_refl).
  - split; [| reflexivity]. split; [| reflexivity].
    intros _. exists nav, list. split; [reflexivity |]. split; [reflexivity |].
    intros i Heq. apply child_index_spec in Heq. congruence.
Qed.

Lemma insert_nth_split {A : Type} (x : A) (i : nat) (l : list A) :
  (i <= List.length l)%nat -> insert_nth x i l = firstn i l ++ x :: skipn i l.
Proof.
  revert l. induction i as [| i IH]; intros l Hi; [reflexivity |].
  destruct l as [| a l]; cbn in Hi; [lia |]. cbn. rewrite IH by lia. reflexivity.
Qed.

(** X20: when the list found is child [i] of the [nav] found,
    [initMenu] returns normally; the children of the [nav] become the
    first [i] children, the new button (id [menu-toggle], label
    [> ABRIR COMANDOS]), then the list and the rest, unchanged; one
    click listener is added, on the button. *)
Theorem button_goes_before_the_list (w : World) (nav : NodeRef) (i : nat) :
  select (SelTag "nav") (body w) = Some nav ->
  select (SelDescendant "nav" "ul") (body w) = Some (nav ++ [i]) ->
  exists n ul rest,
    node_at (body w) nav = Some n
    /\ skipn i (childNodes n) = ul :: rest /\ tagName ul = "ul"
    /\ Menu.initMenu w = Normal tt (menu_installed nav i w)
    /\ node_at (body (menu_installed nav i w)) nav
       = Some (set_childNodes
                 (firstn i (childNodes n)
                  ++ mkNode "button" "menu-toggle" [] "> ABRIR COMANDOS" [] []
                  :: ul :: rest) n)
    /\ click_listeners (menu_installed nav i w)
       = click_listeners w ++ [(nav ++ [i], fn_toggle (nav ++ [i]) (nav ++ [S i]))].
Proof.
  intros Hnav Hlist.
  destruct (select_node _ _ _ Hnav) as (n & Hn & _).
  destruct (select_node _ _ _ Hlist) as (ul & Hul & Htag).
  rewrite (node_at_child _ _ i _ Hn) in Hul.
  assert (Hi : (i < List.length (childNodes n))%nat).
  { apply nth_error_Some. rewrite Hul. discriminate. }
  destruct (skipn i (childNodes n)) as [| u rest] eqn:Hs.
  { pose proof (f_equal (@List.length Node) Hs) as Hl. rewrite length_skipn in Hl.
    cbn in Hl. lia. }
  assert (u = ul).
  { pose proof (nth_error_skipn i (childNodes n) 0) as Hk.
    rewrite Hs, Nat.add_0_r, Hul in Hk. cbn in Hk. congruence. }
  subst u. exists n, ul, rest.
  split; [exact Hn |]. split; [exact Hs |]. split; [exact Htag |].
  split; [apply (initMenu_placed w nav (nav ++ [i]) i Hnav Hlist);
          apply child_index_spec; reflexivity |].
  split; [| reflexivity].
  unfold menu_installed. cbn [body with_body with_click_listeners].
  rewrite node_at_alter_same, Hn. cbn [option_map]. unfold insert_child.
  rewrite insert_nth_split by lia. rewrite Hs. reflexivity.
Qed.

Lemma button_goes_before_the_list_witness :
  exists n ul rest,
    node_at (body (fresh capable plain_menu 800 600 0)) [1%nat] = Some n
    /\ skipn 0 (childNodes n) = ul :: rest /\ tagName ul = "ul"
    /\ Menu.initMenu (fresh capable plain_menu 800 600 0)
       = Normal tt (menu_installed [1%nat] 0 (fresh capable plain_menu 800 600 0))
    /\ node_at (body (menu_installed [1%nat] 0 (fresh capable plain_menu 800 600 0)))
         [1%nat]
       = Some (set_childNodes
                 (firstn 0 (childNodes n)
                  ++ mkNode "button" "menu-toggle" [] "> ABRIR COMANDOS" [] []
                  :: ul :: rest) n)
    /\ click_listeners (menu_installed [1%nat] 0 (fresh capable plain_menu 800 600 0))
       = click_listeners (fresh capable plain_menu 800 600 0)
         ++ [([1%nat] ++ [0%nat], fn_toggle ([1%nat] ++ [0%nat]) ([1%nat] ++ [1%nat]))].
Proof.
  exact (button_goes_before_the_list (fresh capable plain_menu 800 600 0) [1%nat] 0
           eq_refl eq_refl).
Defined.

(** ** Clicks *)

Lemma toggle_class_keeps_others (token other : string) (n : Node) :
  other <> token ->
  Menu.has_token other (classList (toggle_class token n))
  = Menu.has_token other (classList n).
Proof.
  intros Hne. unfold toggle_class, Menu.has_token.
  destruct (existsb (String.eqb token) (classList n)); cbn [classList set_classList].
  - induction (classList n) as [| c l IH]; [reflexivity |]. cbn.
    destruct (String.eqb_spec token c) as [<- | Hc]; cbn.
    + rewrite IH. destruct (String.eqb_spec other token); [contradiction | reflexivity].
    + rewrite IH. reflexivity.
  - rewrite existsb_app. cbn.
    destruct (String.eqb_spec other token); [contradiction |].
    rewrite !orb_false_r. reflexivity.
Qed.

(** X21: one run of the click listener changes the world in the
    document only; the list keeps everything but its class list, where
    [open] is flipped and every other class is kept; the button keeps
    everything but its label, which reads [> CERRAR COMANDOS] exactly
    when the list now has [open]. *)
Theorem click_changes_one_class_and_one_label (w : World) (p : NodeRef) (i : nat)
  (button ul : Node) :
  node_at (body w) (p ++ [i]) = Some button ->
  node_at (body w) (p ++ [S i]) = Some ul ->
  exists w' button' ul',
    Menu.toggle (p ++ [i]) (p ++ [S i]) w = Normal tt w'
    /\ w' = with_body (body w') w
    /\ node_at (body w') (p ++ [i]) = Some button'
    /\ node_at (body w') (p ++ [S i]) = Some ul'
    /\ set_classList [] ul' = set_classList [] ul
    /\ Menu.has_token "open" (classList ul')
       = negb (Menu.has_token "open" (classList ul))
    /\ (forall c, c <> "open" ->
         Menu.has_token c (classList ul') = Menu.has_token c (classList ul))
    /\ set_innerText "" button' = set_innerText "" button
    /\ innerText button'
       = if Menu.has_token "open" (classList ul')
         then "> CERRAR COMANDOS" else "> ABRIR COMANDOS".
Proof.
  intros Hb Hul.
  destruct (click_toggles w p i button ul Hb Hul) as (H1 & H2 & H3).
  eexists. eexists. eexists.
  split; [apply toggle_eq |].
  split; [unfold toggled; destruct w; reflexivity |].
  split; [exact H3 |]. split; [exact H1 |].
  split; [unfold toggle_class;
          destruct (Menu.has_token "open" (classList ul)); reflexivity |].
  split; [exact H2 |].
  split; [intros c Hc; apply toggle_class_keeps_others; exact Hc |].
  split; [reflexivity |].
  cbn [innerText set_innerText]. rewrite H2. reflexivity.
Qed.

Lemma click_changes_one_class_and_one_label_witness :
  exists w' button' ul',
    Menu.toggle ([1%nat] ++ [0%nat]) ([1%nat] ++ [1%nat])
      (menu_installed [1%nat] 0 (fresh capable plain_menu 800 600 0)) = Normal tt w'
    /\ w' = with_body (body w')
              (menu_installed [1%nat] 0 (fresh capable plain_menu 800 600 0))
    /\ node_at (body w') ([1%nat] ++ [0%nat]) = Some button'
    /\ node_at (body w') ([1%nat] ++ [1%nat]) = Some ul'
    /\ set_classList [] ul' = set_classList [] (element "ul" [element "li" []])
    /\ Menu.has_token "open" (classList ul')
       = negb (Menu.has_token "open" (classList (element "ul" [element "li" []])))
    /\ (forall c, c <> "open" ->
         Menu.has_token c (classList ul')
         = Menu.has_token c (classList (element "ul" [element "li" []])))
    /\ set_innerText "" button' = set_innerText "" menu_button
    /\ innerText button'
       = if Menu.has_token "open" (classList ul')
         then "> CERRAR COMANDOS" else "> ABRIR COMANDOS".
Proof.
  exact (click_changes_one_class_and_one_label
           (menu_installed [1%nat] 0 (fresh capable plain_menu 800 600 0))
           [1%nat] 0 menu_button (element "ul" [element "li" []]) eq_refl eq_refl).
Defined.

(** The menu after [n] clicks on its button. *)
Lemma clicks_snoc (target : NodeRef) (n : nat) :
  repeat (Page.Click target) (S n) = repeat (Page.Click target) n ++ [Page.Click target].
Proof.
  induction n as [| n IH]; [reflexivity |].
  cbn [repeat] in *. rewrite IH at 1. reflexivity.
Qed.

Lemma click_on_ready_menu (w : World) (p : NodeRef) (i : nat) :
  menu_ready (p ++ [i]) (p ++ [S i]) w ->
  Page.handle (Page.Click (p ++ [i])) w = toggled (p ++ [i]) (p ++ [S i]) w
  /\ menu_ready (p ++ [i]) (p ++ [S i]) (toggled (p ++ [i]) (p ++ [S i]) w)
  /\ is_open (body (toggled (p ++ [i]) (p ++ [S i]) w)) (p ++ [S i])
     = negb (is_open (body w) (p ++ [S i]))
  /\ option_map innerText (node_at (body (toggled (p ++ [i]) (p ++ [S i]) w)) (p ++ [i]))
     = Some (label_for (negb (is_open (body w) (p ++ [S i])))).
Proof.
  intros (Hc & (b & Hb) & (u & Hu)).
  destruct (click_toggles w p i b u Hb Hu) as (H1 & H2 & H3).
  split.
  { unfold Page.handle, Page.listeners_on. rewrite Hc. cbn [filter fst].
    rewrite ref_eqb_refl. cbn [map snd]. rewrite dispatch_one. cbn [Page.call].
    rewrite toggle_eq. reflexivity. }
  split.
  { split; [exact Hc |]. split; eexists; [exact H3 | exact H1]. }
  unfold is_open at 1 2. rewrite H1, H3, Hu. cbn [option_map innerText set_innerText].
  split; [exact H2 |]. unfold label_for, is_open. rewrite Hu. reflexivity.
Qed.

(** X22: after [n] clicks on the button the list has class [open]
    exactly when it had it before and [n] is even, or had it not and
    [n] is odd; from the first click on, the label follows the class. *)
Theorem clicks_alternate (w : World) (p : NodeRef) (i n : nat) :
  menu_ready (p ++ [i]) (p ++ [S i]) w ->
  is_open (body (Page.run (repeat (Page.Click (p ++ [i])) n) w)) (p ++ [S i])
  = xorb (is_open (body w) (p ++ [S i])) (Nat.odd n)
  /\ (n <> 0%nat ->
      option_map innerText
        (node_at (body (Page.run (repeat (Page.Click (p ++ [i])) n) w)) (p ++ [i]))
      = Some (if xorb (is_open (body w) (p ++ [S i])) (Nat.odd n)
              then "> CERRAR COMANDOS" else "> ABRIR COMANDOS")).
Proof.
  intros Hready.
  assert (H : menu_ready (p ++ [i]) (p ++ [S i])
                (Page.run (repeat (Page.Click (p ++ [i])) n) w)
              /\ is_open (body (Page.run (repeat (Page.Click (p ++ [i])) n) w))
                   (p ++ [S i])
                 = xorb (is_open (body w) (p ++ [S i])) (Nat.odd n)
              /\ (n <> 0%nat ->
                  option_map innerText
                    (node_at (body (Page.run (repeat (Page.Click (p ++ [i])) n) w))
                       (p ++ [i]))
                  = Some (label_for (xorb (is_open (body w) (p ++ [S i])) (Nat.odd n))))).
  { induction n as [| n (IHr & IHo & _)].
    - cbn. rewrite xorb_false_r. split; [exact Hready |]. split; [reflexivity |].
      intros Hn. contradiction.
    - rewrite clicks_snoc, run_app.
      change (Page.run [Page.Click (p ++ [i])] ?x)
        with (Page.handle (Page.Click (p ++ [i])) x).
      destruct (click_on_ready_menu _ p i IHr) as (-> & Hr' & Ho' & Hl').
      rewrite Nat.odd_succ, <- Nat.negb_odd, <- negb_xorb_r, <- IHo.
      split; [exact Hr' |]. split; [exact Ho' |]. intros _. exact Hl'. }
  destruct H as (_ & Ho & Hl). split; [exact Ho | exact Hl].
Qed.

Lemma clicks_alternate_witness :
  menu_ready ([1%nat] ++ [0%nat]) ([1%nat] ++ [1%nat])
    (menu_installed [1%nat] 0 (fresh capable plain_menu 800 600 0))
  /\ is_open
       (body (Page.run (repeat (Page.Click ([1%nat] ++ [0%nat])) 3)
                (menu_installed [1%nat] 0 (fresh capable plain_menu 800 600 0))))
       ([1%nat] ++ [1%nat])
     = xorb (is_open (body (menu_installed [1%nat] 0 (fresh capable plain_menu 800 600 0)))
               ([1%nat] ++ [1%nat]))
         (Nat.odd 3).
Proof.
  assert (H : menu_ready ([1%nat] ++ [0%nat]) ([1%nat] ++ [1%nat])
                (menu_installed [1%nat] 0 (fresh capable plain_menu 800 600 0))).
  { split; [reflexivity |]. split; eexists; reflexivity. }
  split; [exact H |].
  exact (proj1 (clicks_alternate _ [1%nat] 0 3 H)).
Defined.

(** ** A menu that cannot be built *)

(** X23: when the handler ends with an exception, the exception is
    [NotFoundError] from [initMenu] and the world is exactly the one
    [initCRT] left: the overlay is set up (or abandoned) as if the menu
    code were not there. *)
Theorem menu_failure_keeps_the_overlay (p : Platform) (doc : list Node) (iw ih : N)
  (t : R) :
  returns (Page.loaded p doc iw ih t) = false ->
  Page.loaded p doc iw ih t
  = Throws NotFoundError (world_of (Crt.initCRT (fresh p doc iw ih t))).
Proof.
  rewrite loaded_eq.
  assert (E : world_of (Crt.initCRT (fresh p doc iw ih t))
              = if init_ok p then started (fresh p doc iw ih t)
                else abandoned (fresh p doc iw ih t)).
  { destruct (init_ok p) eqn:Hok;
      [rewrite initCRT_started | rewrite initCRT_abandoned]; auto. }
  rewrite E. set (w1 := if init_ok p then _ else _). rewrite initMenu_eq.
  destruct (select (SelTag "nav") (body w1)); [| discriminate].
  destruct (select (SelDescendant "nav" "ul") (body w1)); [| discriminate].
  destruct (Menu.child_index _ _); [discriminate | reflexivity].
Qed.

Lemma menu_failure_keeps_the_overlay_witness :
  Page.loaded capable two_navs 800 600 0
  = Throws NotFoundError (world_of (Crt.initCRT (fresh capable two_navs 800 600 0))).
Proof.
  apply (menu_failure_keeps_the_overlay capable two_navs 800 600 0).
  rewrite loaded_eq, initMenu_eq. reflexivity.
Defined.
End PageLaws.
